(** * LeadGen: the lead-qualification pipeline of [lead-gen-ai/server.py]

    A shallow embedding of the request validator ([Lead]), of the
    extraction loop over [groupchat.messages], of the assembly of
    [ai_analysis] and of the ledger append, with the properties the
    specification states about them.

    Python values are modelled as follows.
    - [str] is a sequence of Unicode code points ([list N]); the [str]
      methods the program calls ([replace], [isdigit], [strip],
      [startswith], [endswith]) are defined on it with the tables of the
      Unicode database (version 14.0.0, as shipped with CPython 3.11).
    - a [dict] used as a map from agent names ([results]) is a [gmap];
      decoded JSON objects and dict literals, whose key order shows in
      [json.dumps], are association lists inside [json].
    - [json.loads] is a decoder over code points written after CPython's
      [json.decoder] / [json.scanner]; [json.dumps] is a parameter of the
      pipeline (no property below depends on how a value is printed).
    - exceptions are values of [exn]; the two external calls (the group
      chat and [sheet.append_row]) are oracles that return or raise. *)

From Stdlib Require Import ZArith NArith List Bool String Ascii DecimalString Lia.
From stdpp Require Import gmap list.

Import ListNotations.
Local Open Scope N_scope.

(** ** Python [str] *)

Abbreviation str := (list N).

(** A literal of ASCII characters, and one in which the apostrophe stands
    for the double quote. *)
Definition py (s : string) : str :=
  List.map N_of_ascii (list_ascii_of_string s).

Definition pyq (s : string) : str :=
  List.map (fun c => if c =? 39 then 34 else c) (py s).

Module PyStr.

(** Code point ranges on which [str.isdigit] holds (Numeric_Type Digit or
    Decimal). *)
Definition digit_ranges : list (N * N) :=
  [(48, 57); (178, 179); (185, 185); (1632, 1641); (1776, 1785);
   (1984, 1993); (2406, 2415); (2534, 2543); (2662, 2671); (2790, 2799);
   (2918, 2927); (3046, 3055); (3174, 3183); (3302, 3311); (3430, 3439);
   (3558, 3567); (3664, 3673); (3792, 3801); (3872, 3881); (4160, 4169);
   (4240, 4249); (4969, 4977); (6112, 6121); (6160, 6169); (6470, 6479);
   (6608, 6618); (6784, 6793); (6800, 6809); (6992, 7001); (7088, 7097);
   (7232, 7241); (7248, 7257); (8304, 8304); (8308, 8313); (8320, 8329);
   (9312, 9320); (9332, 9340); (9352, 9360); (9450, 9450); (9461, 9469);
   (9471, 9471); (10102, 10110); (10112, 10120); (10122, 10130);
   (42528, 42537); (43216, 43225); (43264, 43273); (43472, 43481);
   (43504, 43513); (43600, 43609); (44016, 44025); (65296, 65305);
   (66720, 66729); (68160, 68163); (68912, 68921); (69216, 69224);
   (69714, 69722); (69734, 69743); (69872, 69881); (69942, 69951);
   (70096, 70105); (70384, 70393); (70736, 70745); (70864, 70873);
   (71248, 71257); (71360, 71369); (71472, 71481); (71904, 71913);
   (72016, 72025); (72784, 72793); (73040, 73049); (73120, 73129);
   (92768, 92777); (92864, 92873); (93008, 93017); (120782, 120831);
   (123200, 123209); (123632, 123641); (125264, 125273);
   (127232, 127242); (130032, 130041)].

(** Code point ranges on which [str.isspace] holds. *)
Definition space_ranges : list (N * N) :=
  [(9, 13); (28, 32); (133, 133); (160, 160); (5760, 5760);
   (8192, 8202); (8232, 8233); (8239, 8239); (8287, 8287);
   (12288, 12288)].

Definition in_ranges (t : list (N * N)) (c : N) : bool :=
  existsb (fun r => (fst r <=? c) && (c <=? snd r)) t.

Definition char_isdigit (c : N) : bool := in_ranges digit_ranges c.
Definition char_isspace (c : N) : bool := in_ranges space_ranges c.

(** [v.isdigit()]: at least one character, and all of them digits. *)
Definition isdigit (v : str) : bool :=
  match v with
  | [] => false
  | _ => forallb char_isdigit v
  end.

(** [v.replace(old, '')] for a one-character [old]. *)
Definition remove (old : N) (v : str) : str :=
  List.filter (fun c => negb (c =? old)) v.

Fixpoint lstrip (v : str) : str :=
  match v with
  | c :: r => if char_isspace c then lstrip r else v
  | [] => []
  end.

Definition rstrip (v : str) : str := rev (lstrip (rev v)).

(** [v.strip()] *)
Definition strip (v : str) : str := rstrip (lstrip v).

(** [v.startswith(c)] and [v.endswith(c)] for a one-character [c]. *)
Definition startswith (c : N) (v : str) : bool :=
  match v with
  | x :: _ => x =? c
  | [] => false
  end.

Definition endswith (c : N) (v : str) : bool := startswith c (rev v).

(** The truth value of a [str]: non-empty. *)
Definition truthy (v : str) : bool :=
  match v with [] => false | _ => true end.

End PyStr.

Definition comma : N := 44.
Definition lbrace : N := 123.
Definition rbrace : N := 125.

(** ** The [Lead] model and its validators *)

Inductive field :=
| f_name | f_income | f_savings | f_credit_score | f_dob | f_lump_sum
| f_monthly_contribution | f_goals.

(** Why a field is refused: it is required and missing, or one of the
    validators raised [ValueError] with the given message. *)
Inductive reason :=
| FieldRequired
| ValueError (msg : str).

(** The body of a request: each field is a string, or is missing (no key,
    or [null]). *)
Record LeadInput := {
  in_name : option str;
  in_income : option str;
  in_savings : option str;
  in_credit_score : option str;
  in_dob : option str;
  in_lump_sum : option str;
  in_monthly_contribution : option str;
  in_goals : option str
}.

Record Lead := {
  name : str;
  income : str;
  savings : str;
  credit_score : option str;
  dob : option str;
  lump_sum : option str;
  monthly_contribution : option str;
  goals : str
}.

(** [@validator("income", "savings")] *)
Definition check_numeric (v : str) : reason + str :=
  if negb (PyStr.isdigit (PyStr.remove comma v))
  then inl (ValueError (py "Must be a numeric value (commas allowed)"))
  else inr v.

(** [@validator("credit_score", "lump_sum", "monthly_contribution",
    pre=True, always=True)] *)
Definition check_numeric_optional (v : option str) : reason + option str :=
  match v with
  | None => inr None
  | Some [] => inr None
  | Some s =>
      if negb (PyStr.isdigit (PyStr.remove comma s))
      then inl (ValueError
                  (py "Must be a numeric value (commas allowed) or empty"))
      else inr (Some s)
  end.

(** A field declared [str] without a default. *)
Definition required (v : option str) : reason + str :=
  match v with
  | None => inl FieldRequired
  | Some s => inr s
  end.

Definition required_numeric (v : option str) : reason + str :=
  match required v with
  | inl e => inl e
  | inr s => check_numeric s
  end.

Definition errors_of {A} (f : field) (r : reason + A) : list (field * reason) :=
  match r with
  | inl e => [(f, e)]
  | inr _ => []
  end.

(** Construction of a [Lead] from a request body: every field is checked,
    in declaration order, and the errors are collected. *)
Definition Lead_validate (r : LeadInput) : list (field * reason) + Lead :=
  let v_name := required (in_name r) in
  let v_income := required_numeric (in_income r) in
  let v_savings := required_numeric (in_savings r) in
  let v_credit := check_numeric_optional (in_credit_score r) in
  let v_lump := check_numeric_optional (in_lump_sum r) in
  let v_monthly := check_numeric_optional (in_monthly_contribution r) in
  let v_goals := required (in_goals r) in
  match v_name, v_income, v_savings, v_credit, v_lump, v_monthly, v_goals with
  | inr n, inr i, inr s, inr c, inr l, inr m, inr g =>
      inr {| name := n; income := i; savings := s; credit_score := c;
             dob := in_dob r; lump_sum := l; monthly_contribution := m;
             goals := g |}
  | _, _, _, _, _, _, _ =>
      inl (errors_of f_name v_name ++ errors_of f_income v_income
           ++ errors_of f_savings v_savings
           ++ errors_of f_credit_score v_credit
           ++ errors_of f_lump_sum v_lump
           ++ errors_of f_monthly_contribution v_monthly
           ++ errors_of f_goals v_goals)
  end.

Definition accepted (r : LeadInput) : Prop :=
  exists l, Lead_validate r = inr l.

(** *** The acceptance rule in the words of the specification *)

Definition ascii_digit (c : N) : bool := (48 <=? c) && (c <=? 57).

(** A full match of [s] against the regular expression [^[0-9,]+$]. *)
Definition matches_digits_commas (s : str) : bool :=
  match s with
  | [] => false
  | _ => forallb (fun c => ascii_digit c || (c =? comma)) s
  end.

(** A numeric value as the specification has it: after the thousands
    separators are removed, it matches the expression. *)
Definition spec_numeric (v : str) : bool :=
  matches_digits_commas (PyStr.remove comma v).

Definition spec_required (v : option str) : bool :=
  match v with Some _ => true | None => false end.

Definition spec_required_numeric (v : option str) : bool :=
  match v with Some s => spec_numeric s | None => false end.

(** An empty or absent optional field is not present. *)
Definition spec_optional_numeric (v : option str) : bool :=
  match v with
  | None => true
  | Some [] => true
  | Some s => spec_numeric s
  end.

Definition spec_accepts (r : LeadInput) : bool :=
  spec_required (in_name r) && spec_required_numeric (in_income r)
  && spec_required_numeric (in_savings r)
  && spec_optional_numeric (in_credit_score r)
  && spec_optional_numeric (in_lump_sum r)
  && spec_optional_numeric (in_monthly_contribution r)
  && spec_required (in_goals r).

(** The same rule with Python's notion of a digit: [numeric v] holds when
    [v] without its commas is non-empty and made of characters that
    [str.isdigit] accepts. *)
Definition unicode_numeric (v : str) : bool :=
  match PyStr.remove comma v with
  | [] => false
  | w => forallb PyStr.char_isdigit w
  end.

Definition unicode_required_numeric (v : option str) : bool :=
  match v with Some s => unicode_numeric s | None => false end.

Definition unicode_optional_numeric (v : option str) : bool :=
  match v with
  | None => true
  | Some [] => true
  | Some s => unicode_numeric s
  end.

Definition unicode_accepts (r : LeadInput) : bool :=
  spec_required (in_name r) && unicode_required_numeric (in_income r)
  && unicode_required_numeric (in_savings r)
  && unicode_optional_numeric (in_credit_score r)
  && unicode_optional_numeric (in_lump_sum r)
  && unicode_optional_numeric (in_monthly_contribution r)
  && spec_required (in_goals r).

Definition is_ascii (v : str) : bool := forallb (fun c => c <? 128) v.

Definition ascii_opt (v : option str) : bool :=
  match v with Some s => is_ascii s | None => true end.

(** The numeric fields of the request hold ASCII characters only. *)
Definition ascii_numeric_fields (r : LeadInput) : bool :=
  ascii_opt (in_income r) && ascii_opt (in_savings r)
  && ascii_opt (in_credit_score r) && ascii_opt (in_lump_sum r)
  && ascii_opt (in_monthly_contribution r).

(** ** JSON values and [json.loads] *)

Module Json.

(** A decoded float: one of the three constants, or a literal with a
    fraction or an exponent, kept as the decimal it denotes (sign, digits
    before and after the dot, power of ten); Python rounds that decimal
    to the nearest binary64 value. *)
Inductive pyfloat :=
| FNaN
| FInf (negative : bool)
| FLit (negative : bool) (int_digits frac_digits : str) (exponent : Z).

(** What [json.loads] returns: [None], [bool], [int], [float], [str],
    [list], and [dict] with its keys in insertion order. *)
#[warnings="-register-all"]
Inductive json :=
| JNull
| JBool (b : bool)
| JInt (z : Z)
| JFloat (f : pyfloat)
| JStr (s : str)
| JArr (items : list json)
| JObj (pairs : list (str * json)).

(** [d[k] = v] on a dict: an existing key keeps its position and takes the
    new value, a new key goes last. *)
Fixpoint dict_set (k : str) (v : json) (d : list (str * json))
  : list (str * json) :=
  match d with
  | [] => [(k, v)]
  | (k', v') :: d' =>
      if decide (k' = k) then (k, v) :: d' else (k', v') :: dict_set k v d'
  end.

(** The outcome of scanning a value at the head of a text. *)
Inductive result (A : Type) :=
| Ok (a : A) (rest : str)
| Bad
| OutOfFuel.
Arguments Ok {A} a rest.
Arguments Bad {A}.
Arguments OutOfFuel {A}.

Definition is_ws (c : N) : bool :=
  (c =? 32) || (c =? 9) || (c =? 10) || (c =? 13).

Fixpoint skip_ws (s : str) : str :=
  match s with
  | c :: r => if is_ws c then skip_ws r else s
  | [] => []
  end.

Definition is_digit (c : N) : bool := (48 <=? c) && (c <=? 57).

Definition hex_digit (c : N) : option N :=
  if (48 <=? c) && (c <=? 57) then Some (c - 48)
  else if (97 <=? c) && (c <=? 102) then Some (c - 87)
  else if (65 <=? c) && (c <=? 70) then Some (c - 55)
  else None.

Definition hex4 (a b c d : N) : option N :=
  match hex_digit a, hex_digit b, hex_digit c, hex_digit d with
  | Some x, Some y, Some z, Some w => Some (((x * 16 + y) * 16 + z) * 16 + w)
  | _, _, _, _ => None
  end.

(** The character a backslash escape other than [\u] stands for. *)
Definition backslash (c : N) : option N :=
  if c =? 34 then Some 34
  else if c =? 92 then Some 92
  else if c =? 47 then Some 47
  else if c =? 98 then Some 8
  else if c =? 102 then Some 12
  else if c =? 110 then Some 10
  else if c =? 114 then Some 13
  else if c =? 116 then Some 9
  else None.

Definition high_surrogate (u : N) : bool := (55296 <=? u) && (u <=? 56319).
Definition low_surrogate (u : N) : bool := (56320 <=? u) && (u <=? 57343).

Definition join_surrogates (hi lo : N) : N :=
  65536 + N.lor (N.shiftl (hi - 55296) 10) (lo - 56320).

(** [scanstring], strict: [s] starts after the opening quote; the result
    is the decoded string and the text after the closing quote. [acc]
    holds the characters decoded so far, last first. *)
Fixpoint scanstring (s : str) (acc : str) : option (str * str) :=
  match s with
  | [] => None
  | c :: r =>
      if c =? 34 then Some (rev acc, r)
      else if c =? 92 then
        match r with
        | [] => None
        | e :: r1 =>
            if e =? 117 then
              match r1 with
              | h1 :: h2 :: h3 :: h4 :: r2 =>
                  match hex4 h1 h2 h3 h4 with
                  | None => None
                  | Some uni =>
                      if high_surrogate uni then
                        match r2 with
                        | b :: u :: r3 =>
                            if (b =? 92) && (u =? 117) then
                              match r3 with
                              | g1 :: g2 :: g3 :: g4 :: r4 =>
                                  match hex4 g1 g2 g3 g4 with
                                  | None => None
                                  | Some uni2 =>
                                      if low_surrogate uni2
                                      then scanstring r4
                                             (join_surrogates uni uni2 :: acc)
                                      else scanstring r2 (uni :: acc)
                                  end
                              | _ => None
                              end
                            else scanstring r2 (uni :: acc)
                        | _ => scanstring r2 (uni :: acc)
                        end
                      else scanstring r2 (uni :: acc)
                  end
              | _ => None
              end
            else
              match backslash e with
              | Some x => scanstring r1 (x :: acc)
              | None => None
              end
        end
      else if c <=? 31 then None
      else scanstring r (c :: acc)
  end.

(** The longest prefix of decimal digits, and what follows it. *)
Fixpoint span_digits (s : str) : str * str :=
  match s with
  | c :: r =>
      if is_digit c then let '(ds, r') := span_digits r in (c :: ds, r')
      else ([], s)
  | [] => ([], [])
  end.

Definition int_of_digits (ds : str) : Z :=
  fold_left (fun a c => (a * 10 + Z.of_N (c - 48))%Z) ds 0%Z.

(** The integer part at the head of [s]: an optional minus sign, then
    either the digit 0 alone or a digit from 1 to 9 and any digits. *)
Definition match_integer (s : str) : option (bool * str * str) :=
  let '(neg, s1) :=
    match s with
    | c :: r => if c =? 45 then (true, r) else (false, s)
    | [] => (false, s)
    end in
  match s1 with
  | c :: r =>
      if c =? 48 then Some (neg, [c], r)
      else if is_digit c
           then let '(ds, r') := span_digits r in Some (neg, c :: ds, r')
           else None
  | [] => None
  end.

(** The fraction, a dot and one or more digits, when there is one: its
    digits, and what follows it. *)
Definition match_frac (s : str) : option str * str :=
  match s with
  | d :: r =>
      if d =? 46 then
        match span_digits r with
        | ([], _) => (None, s)
        | (ds, r') => (Some ds, r')
        end
      else (None, s)
  | [] => (None, s)
  end.

(** The exponent, [e] or [E], an optional sign and one or more digits,
    when there is one: its value, and what follows it. *)
Definition match_exp (s : str) : option Z * str :=
  match s with
  | e :: r =>
      if (e =? 101) || (e =? 69) then
        let '(neg, r1) :=
          match r with
          | g :: t =>
              if g =? 45 then (true, t)
              else if g =? 43 then (false, t)
              else (false, r)
          | [] => (false, r)
          end in
        match span_digits r1 with
        | ([], _) => (None, s)
        | (ds, r') =>
            (Some (if neg then - int_of_digits ds else int_of_digits ds)%Z, r')
        end
      else (None, s)
  | [] => (None, s)
  end.

(** A number at the head of [s]: an [int] when it has neither fraction
    nor exponent, a [float] otherwise. *)
Definition match_number (s : str) : result json :=
  match match_integer s with
  | None => Bad
  | Some (neg, ip, r1) =>
      let '(frac, r2) := match_frac r1 in
      let '(exp, r3) := match_exp r2 in
      match frac, exp with
      | None, None =>
          Ok (JInt (if neg then - int_of_digits ip else int_of_digits ip)%Z) r3
      | _, _ =>
          Ok (JFloat (FLit neg ip (default [] frac) (default 0%Z exp))) r3
      end
  end.

(** [s] without the prefix [p], when it starts with it. *)
Fixpoint strip_prefix (p s : str) : option str :=
  match p, s with
  | [], _ => Some s
  | a :: p', b :: s' => if a =? b then strip_prefix p' s' else None
  | _ :: _, [] => None
  end.

Section Containers.

(** The scanner for the values nested in an array or an object. *)
Variable scan : str -> result json.

(** The elements of an array; [s] is at the start of an element and
    [acc] holds the elements read so far, last first. *)
Fixpoint array_loop (n : nat) (s : str) (acc : list json) : result json :=
  match n with
  | O => OutOfFuel
  | S n' =>
      match scan s with
      | Ok v r =>
          match skip_ws r with
          | c :: r' =>
              if c =? 93 then Ok (JArr (rev (v :: acc))) r'
              else if c =? 44 then array_loop n' (skip_ws r') (v :: acc)
              else Bad
          | [] => Bad
          end
      | Bad => Bad
      | OutOfFuel => OutOfFuel
      end
  end.

(** [s] starts after the opening bracket. *)
Definition parse_array (s : str) : result json :=
  match skip_ws s with
  | c :: r =>
      if c =? 93 then Ok (JArr []) r
      else array_loop (length (c :: r)) (c :: r) []
  | [] => Bad
  end.

(** The members of an object; [s] is where a key is expected and
    [d] is the dict built so far. *)
Fixpoint object_loop (n : nat) (s : str) (d : list (str * json))
  : result json :=
  match n with
  | O => OutOfFuel
  | S n' =>
      match s with
      | q :: r =>
          if q =? 34 then
            match scanstring r [] with
            | Some (key, r1) =>
                match skip_ws r1 with
                | c1 :: r2 =>
                    if c1 =? 58 then
                      match scan (skip_ws r2) with
                      | Ok v r3 =>
                          match skip_ws r3 with
                          | c3 :: r4 =>
                              if c3 =? 125 then Ok (JObj (dict_set key v d)) r4
                              else if c3 =? 44
                                   then object_loop n' (skip_ws r4)
                                          (dict_set key v d)
                                   else Bad
                          | [] => Bad
                          end
                      | Bad => Bad
                      | OutOfFuel => OutOfFuel
                      end
                    else Bad
                | [] => Bad
                end
            | None => Bad
            end
          else Bad
      | [] => Bad
      end
  end.

(** [s] starts after the opening brace. *)
Definition parse_object (s : str) : result json :=
  match skip_ws s with
  | c :: r =>
      if c =? 125 then Ok (JObj []) r
      else object_loop (length (c :: r)) (c :: r) []
  | [] => Bad
  end.

End Containers.

Definition constant (text : string) (v : json) (s : str) : result json :=
  match strip_prefix (py text) s with
  | Some r => Ok v r
  | None => Bad
  end.

(** [scan_once]: the value at the head of [s]. Each nested array or
    object takes one unit of [fuel]. *)
Fixpoint scan_once (fuel : nat) (s : str) : result json :=
  match fuel with
  | O => OutOfFuel
  | S f =>
      match s with
      | [] => Bad
      | c :: r =>
          if c =? 34 then
            match scanstring r [] with
            | Some (v, r') => Ok (JStr v) r'
            | None => Bad
            end
          else if c =? 123 then parse_object (scan_once f) r
          else if c =? 91 then parse_array (scan_once f) r
          else if c =? 110 then constant "null" JNull s
          else if c =? 116 then constant "true" (JBool true) s
          else if c =? 102 then constant "false" (JBool false) s
          else if c =? 78 then constant "NaN" (JFloat FNaN) s
          else if c =? 73 then constant "Infinity" (JFloat (FInf false)) s
          else if (c =? 45) && bool_decide (is_Some (strip_prefix (py "-Infinity") s))
               then constant "-Infinity" (JFloat (FInf true)) s
          else match_number s
      end
  end.

(** [json.loads(s)] for a [str]: the decoded value, or [None] where
    Python raises [JSONDecodeError]. Leading and trailing JSON white
    space is allowed, anything else after the value is an error. The
    nesting depth of a text is less than its length, so the fuel below is
    never exhausted ([loads_fuel]). Two limits of the interpreter are left
    out: the recursion limit on deeply nested texts and the limit on the
    number of digits of an integer literal. *)
Definition loads (s : str) : option json :=
  match scan_once (S (length s)) (skip_ws s) with
  | Ok v r => match skip_ws r with [] => Some v | _ => None end
  | _ => None
  end.

(** Whether a float is [0.0] or [-0.0]. A literal rounds to zero when
    it is zero or at most half the least positive binary64 value, that
    is [m * 10^(-k) <= 2^(-1075)] for its digits [m] and [k] decimal
    places. *)
Definition float_is_zero (f : pyfloat) : bool :=
  match f with
  | FNaN | FInf _ => false
  | FLit _ ip frac e =>
      let m := int_of_digits (ip ++ frac) in
      let k := (Z.of_nat (length frac) - e)%Z in
      if (m =? 0)%Z then true
      else if (k <=? 0)%Z then false
      else (m * 2 ^ 1075 <=? 10 ^ k)%Z
  end.

(** The truth value of a decoded value, as [if v:] takes it. *)
Definition truthy (v : json) : bool :=
  match v with
  | JNull => false
  | JBool b => b
  | JInt z => negb (z =? 0)%Z
  | JFloat f => negb (float_is_zero f)
  | JStr s => PyStr.truthy s
  | JArr [] => false
  | JArr (_ :: _) => true
  | JObj [] => false
  | JObj (_ :: _) => true
  end.

End Json.

Import Json.

(** ** The chat transcript and the extraction loop *)

(** One entry of [groupchat.messages]: [message['role']],
    [message['name']] and [message.get('content', '')] ([None] when the
    entry has no content key). *)
Record message := {
  msg_role : str;
  msg_name : str;
  msg_content : option str
}.

Definition error (reason : string) : json :=
  JObj [(py "error", JStr (py reason))].

(** The [try] block of the loop body: the value stored under the agent's
    name. [looks_like_json] is the condition of the conditional
    expression, and [parsed_content] is [None] where [json.loads] raises
    [JSONDecodeError]. *)
Definition looks_like_json (content : str) : bool :=
  PyStr.startswith lbrace (PyStr.strip content)
  && PyStr.endswith rbrace (PyStr.strip content).

Definition parse_content (content : str) : json :=
  let parsed_content :=
    if looks_like_json content then loads content else Some (JObj []) in
  match parsed_content with
  | Some parsed =>
      if truthy parsed then parsed else error "Malformed JSON from AI"
  | None => error "Invalid JSON from AI"
  end.

(** A message the loop takes up: [message['role'] == 'user' and
    message['name'] != 'User']. *)
Definition from_agent (m : message) : bool :=
  bool_decide (msg_role m = py "user")
  && negb (bool_decide (msg_name m = py "User")).

(** One iteration of [for message in groupchat.messages]. *)
Definition process_message (results : gmap str json) (m : message)
  : gmap str json :=
  if from_agent m
  then <[msg_name m := parse_content (default [] (msg_content m))]> results
  else results.

(** The loop, from [results = {}]. *)
Definition extract (messages : list message) : gmap str json :=
  fold_left process_message messages ∅.

(** ** Assembly *)

(** [results.get(key, fallback)] *)
Definition get (results : gmap str json) (key : string) (fallback : json)
  : json :=
  default fallback (results !! py key).

Definition NA : json := JStr (py "N/A").

Definition ai_analysis (results : gmap str json) : json :=
  JObj
    [(py "qualification",
      get results "LeadQualificationAgent"
        (JObj [(py "priority", NA); (py "reasoning", NA)]));
     (py "financial_strategy",
      get results "FinancialStrategyAgent"
        (JObj [(py "budget", NA); (py "investment", NA); (py "savings", NA)]));
     (py "policy",
      get results "PolicyAdvisorAgent"
        (JObj [(py "policy_type", NA); (py "reasoning", NA)]));
     (py "anti_iul_critique",
      get results "AntiIULAgent" (JObj [(py "critique", NA)]));
     (py "risk_assessment",
      get results "RiskAssessmentAgent"
        (JObj [(py "risk_tolerance", NA); (py "reasoning", NA)]));
     (py "followup",
      get results "FollowupAgent"
        (JObj [(py "subject", NA); (py "body", NA)]))].

(** ** The pipeline *)

(** [x if x else "N/A"] for an optional field. *)
Definition or_NA (x : option str) : str :=
  match x with
  | Some s => if PyStr.truthy s then s else py "N/A"
  | None => py "N/A"
  end.

Definition nl : str := [10].

Definition initial_message (lead : Lead) : str :=
  py "Process the following lead and generate structured responses as follows:" ++ nl
  ++ py "- LeadQualificationAgent: Assess lead priority (high/low) and provide reasoning." ++ nl
  ++ py "- FinancialStrategyAgent: Provide budgeting, investment, and savings strategies." ++ nl
  ++ py "- RiskAssessmentAgent: Evaluate risk tolerance, considering lump sum/monthly contributions." ++ nl
  ++ py "- PolicyAdvisorAgent: Recommend the most suitable life insurance policy." ++ nl
  ++ py "- AntiIULAgent: Critique any IUL or VUL policies." ++ nl
  ++ py "- FollowupAgent: Draft a follow-up email." ++ nl ++ nl
  ++ py "Lead Details:" ++ nl
  ++ py "Name: " ++ name lead ++ nl
  ++ py "Income: " ++ income lead ++ nl
  ++ py "Savings: " ++ savings lead ++ nl
  ++ py "Credit Score: " ++ or_NA (credit_score lead) ++ nl
  ++ py "Date of Birth/Age: " ++ or_NA (dob lead) ++ nl
  ++ py "Lump Sum Contribution: " ++ or_NA (lump_sum lead) ++ nl
  ++ py "Monthly Contribution: " ++ or_NA (monthly_contribution lead) ++ nl
  ++ py "Goals: " ++ goals lead ++ nl ++ nl
  ++ py "TERMINATE".

(** The exceptions the two handlers of the pipeline tell apart:
    [HTTPException] with its [detail], and any other [Exception] with its
    text and traceback. *)
Inductive exn :=
| HTTPException (detail : str)
| Exception (text traceback : str).

(** The external calls of one run. [a_initiate_chat] runs the group chat on
    the initial message: it raises, or it returns with
    [groupchat.messages] filled. [append_row] is the spreadsheet client: for
    the row it is given it raises, or it accepts the row. *)
Record world := {
  a_initiate_chat : str -> exn + list message;
  append_row : list str -> option exn
}.

(** The spreadsheet: the rows it holds, and every row [sheet.append_row] was
    called with, accepted or not. *)
Record sheet := {
  rows : list (list str);
  calls : list (list str)
}.

(** The reply to the caller. *)
Record response := {
  resp_status : str;
  resp_message : str;
  resp_ai_analysis : option str
}.

(** Computations that read and change the sheet and may raise. *)
Definition M (A : Type) : Type := sheet -> (exn + A) * sheet.

Definition ret {A} (a : A) : M A := fun s => (inr a, s).

Definition bind {A B} (m : M A) (k : A -> M B) : M B :=
  fun s =>
    match m s with
    | (inr a, s') => k a s'
    | (inl e, s') => (inl e, s')
    end.

Definition lift {A} (r : exn + A) : M A := fun s => (r, s).

Definition try_except {A} (m : M A) (handler : exn -> A) : sheet -> A * sheet :=
  fun s =>
    match m s with
    | (inr a, s') => (a, s')
    | (inl e, s') => (handler e, s')
    end.

Notation "'let*' x := m 'in' k" := (bind m (fun x => k))
  (at level 10, x name, m at level 100, k at level 200).

(** [sheet.append_row(row)]: a call that raises leaves the rows as they
    were. *)
Definition sheet_append_row (w : world) (row : list str) : M unit :=
  fun s =>
    match append_row w row with
    | Some e => (inl e, {| rows := rows s; calls := calls s ++ [row] |})
    | None => (inr tt, {| rows := rows s ++ [row]; calls := calls s ++ [row] |})
    end.

Section Pipeline.

(** [json.dumps] with its default options. *)
Variable json_dumps : json -> str.

Definition ledger_row (lead : Lead) (analysis : json) : list str :=
  [name lead;
   income lead;
   savings lead;
   or_NA (credit_score lead);
   or_NA (dob lead);
   or_NA (lump_sum lead);
   or_NA (monthly_contribution lead);
   goals lead;
   json_dumps analysis].

(** The body of the [try] statement. *)
Definition pipeline_body (w : world) (lead : Lead) : M response :=
  let* messages := lift (a_initiate_chat w (initial_message lead)) in
  let results := extract messages in
  let analysis := ai_analysis results in
  let* _ := sheet_append_row w (ledger_row lead analysis) in
  ret {| resp_status := py "success";
         resp_message := py "Lead processed successfully!";
         resp_ai_analysis := Some (json_dumps analysis) |}.

(** The two [except] clauses. *)
Definition handler (e : exn) : response :=
  match e with
  | HTTPException detail =>
      {| resp_status := py "error"; resp_message := detail;
         resp_ai_analysis := None |}
  | Exception _ _ =>
      {| resp_status := py "error";
         resp_message := py "Internal Server Error.";
         resp_ai_analysis := None |}
  end.

Definition process_lead_pipeline (w : world) (lead : Lead)
  : sheet -> response * sheet :=
  try_except (pipeline_body w lead) handler.

End Pipeline.

(** ** The roster and the rules of the specification *)

(** A role of the roster: its key in the composite result, the name its
    agent speaks under, and the fields of its output. *)
Record role := {
  role_key : string;
  role_agent : string;
  role_fields : list string
}.

Definition roster : list role :=
  [{| role_key := "qualification"; role_agent := "LeadQualificationAgent";
      role_fields := ["priority"; "reasoning"] |};
   {| role_key := "financial_strategy"; role_agent := "FinancialStrategyAgent";
      role_fields := ["budget"; "investment"; "savings"] |};
   {| role_key := "policy"; role_agent := "PolicyAdvisorAgent";
      role_fields := ["policy_type"; "reasoning"] |};
   {| role_key := "anti_iul_critique"; role_agent := "AntiIULAgent";
      role_fields := ["critique"] |};
   {| role_key := "risk_assessment"; role_agent := "RiskAssessmentAgent";
      role_fields := ["risk_tolerance"; "reasoning"] |};
   {| role_key := "followup"; role_agent := "FollowupAgent";
      role_fields := ["subject"; "body"] |}]%string.

(** The placeholder of a role: each of its fields set to ["N/A"]. *)
Definition placeholder (fields : list string) : json :=
  JObj (List.map (fun f => (py f, JStr (py "N/A"))) fields).

(** The entry of a role in the composite result: what was recorded for
    its agent when there is something, its placeholder otherwise. *)
Definition composite_entry (results : gmap str json) (r : role) : str * json :=
  (py (role_key r),
   match results !! py (role_agent r) with
   | Some advice => advice
   | None => placeholder (role_fields r)
   end).

(** What a turn of an agent leaves in [results] under the agent's name. *)
Definition recorded (m : message) : json :=
  parse_content (default [] (msg_content m)).

(** The turns of the transcript that the loop takes up for agent [r], in
    order. *)
Definition turns_of (r : str) (messages : list message) : list message :=
  List.filter (fun m => from_agent m && bool_decide (msg_name m = r)) messages.

(** ** Sample inputs *)

(** A request with the given income, savings and credit score. *)
Definition lead_input (inc sav : str) (score : option str) : LeadInput :=
  {| in_name := Some (py "Ada"); in_income := Some inc;
     in_savings := Some sav; in_credit_score := score; in_dob := None;
     in_lump_sum := None; in_monthly_contribution := None;
     in_goals := Some (py "retire early") |}.

(** The validated lead of [lead_input (py "50,000") (py "1,200") None]. *)
Definition ada : Lead :=
  {| name := py "Ada"; income := py "50,000"; savings := py "1,200";
     credit_score := None; dob := None; lump_sum := None;
     monthly_contribution := None; goals := py "retire early" |}.

(** A message of the transcript as the chat manager records it. *)
Definition turn (speaker content : string) : message :=
  {| msg_role := py "user"; msg_name := py speaker;
     msg_content := Some (pyq content) |}.

(** A transcript in which every agent of the roster but [FollowupAgent]
    answers once, after the opening message of the driving participant. *)
Definition transcript : list message :=
  [turn "User" "Process the following lead TERMINATE";
   turn "LeadQualificationAgent" "{'priority':'high','reasoning':'x'}";
   turn "FinancialStrategyAgent" "Budget first, then invest.";
   turn "RiskAssessmentAgent" "{'risk_tolerance':'low','reasoning':'r'}";
   turn "PolicyAdvisorAgent" "{'policy_type':'term','reasoning':'p'}";
   turn "AntiIULAgent" "{'critique':'fees'}"].

(** A run in which the chat leaves [messages] and the spreadsheet answers
    every call with [fault]. *)
Definition world_of (messages : list message) (fault : option exn) : world :=
  {| a_initiate_chat := fun _ => inr messages;
     append_row := fun _ => fault |}.


(** A second lead, with every optional field filled, and a spreadsheet
    that already holds a row. *)
Definition bob : Lead :=
  {| name := py "Bob"; income := py "72000"; savings := py "3,500";
     credit_score := Some (py "710"); dob := Some (py "1980-02-29");
     lump_sum := Some (py "10,000"); monthly_contribution := Some (py "250");
     goals := py "college fund" |}.

Definition used_sheet : sheet :=
  {| rows := [[py "Eve"]]; calls := [[py "Eve"]] |}.


(** A printer in the format of [json.dumps], to run the pipeline on the
    samples: [", "] and [": "] as separators, every character outside
    printable ASCII escaped. A float literal is printed digit for digit. *)
Module Printer.

Definition hex_char (n : N) : N := if n <? 10 then 48 + n else 87 + n.

Definition u_escape (c : N) : str :=
  [92; 117] ++ [hex_char (c / 4096); hex_char ((c / 256) mod 16);
             hex_char ((c / 16) mod 16); hex_char (c mod 16)].

Definition escape_char (c : N) : str :=
  if c =? 34 then [92; 34]
  else if c =? 92 then [92; 92]
  else if c =? 10 then [92; 110]
  else if c =? 13 then [92; 114]
  else if c =? 9 then [92; 116]
  else if c =? 12 then [92; 102]
  else if c =? 8 then [92; 98]
  else if (32 <=? c) && (c <=? 126) then [c]
  else if c <? 65536 then u_escape c
  else u_escape (55296 + (c - 65536) / 1024)
       ++ u_escape (56320 + (c - 65536) mod 1024).

Definition print_str (v : str) : str :=
  [34] ++ concat (List.map escape_char v) ++ [34].

Definition print_int (z : Z) : str :=
  py (NilZero.string_of_int (Z.to_int z)).

Definition print_float (f : pyfloat) : str :=
  match f with
  | FNaN => py "NaN"
  | FInf false => py "Infinity"
  | FInf true => py "-Infinity"
  | FLit neg ip frac e =>
      (if neg then py "-" else []) ++ ip ++ py "." ++ frac
      ++ py "e" ++ print_int e
  end.

Fixpoint print (v : json) : str :=
  match v with
  | JNull => py "null"
  | JBool true => py "true"
  | JBool false => py "false"
  | JInt z => print_int z
  | JFloat f => print_float f
  | JStr x => print_str x
  | JArr items =>
      py "["
      ++ (fix go (l : list json) : str :=
            match l with
            | [] => []
            | [x] => print x
            | x :: l' => print x ++ py ", " ++ go l'
            end) items
      ++ py "]"
  | JObj pairs =>
      py "{"
      ++ (fix go (l : list (str * json)) : str :=
            match l with
            | [] => []
            | [(k, x)] => print_str k ++ py ": " ++ print x
            | (k, x) :: l' => print_str k ++ py ": " ++ print x ++ py ", " ++ go l'
            end) pairs
      ++ py "}"
  end.

End Printer.

(** ** The termination test of the driving participant *)

(** [s.startswith(prefix)] and [s.endswith(suffix)] for any text. *)
Fixpoint has_prefix (prefix s : str) : bool :=
  match prefix, s with
  | [], _ => true
  | a :: p, b :: r => (a =? b) && has_prefix p r
  | _ :: _, [] => false
  end.

Definition has_suffix (suffix s : str) : bool :=
  has_prefix (rev suffix) (rev s).

Section Lower.

(** The lower case of a character outside ASCII: it is read off the
    tables of the Unicode database and, for the capital sigma, depends on
    the text before and after the character. *)
Variable lower_other : str -> N -> str -> str.

Definition lower_char (before : str) (c : N) (after : str) : str :=
  if c <? 128
  then [if (65 <=? c) && (c <=? 90) then c + 32 else c]
  else lower_other before c after.

(** The lower case of [s], which stands after [before]. *)
Fixpoint lower_from (before s : str) : str :=
  match s with
  | [] => []
  | c :: r => lower_char before c r ++ lower_from (before ++ [c]) r
  end.

(** [s.lower()] *)
Definition lower (s : str) : str := lower_from [] s.

(** [is_termination_msg] of the [UserProxyAgent]:
    [x.get('content', '').strip().lower().endswith('terminate')]. *)
Definition is_termination_msg (x : message) : bool :=
  has_suffix (py "terminate")
    (lower (PyStr.strip (default [] (msg_content x)))).

End Lower.

(** ** Further notions used in the properties *)

(** The request that carries the fields of a lead. *)
Definition input_of (l : Lead) : LeadInput :=
  {| in_name := Some (name l); in_income := Some (income l);
     in_savings := Some (savings l); in_credit_score := credit_score l;
     in_dob := dob l; in_lump_sum := lump_sum l;
     in_monthly_contribution := monthly_contribution l;
     in_goals := Some (goals l) |}.

(** An optional field as the validated lead holds it: the empty text
    counts as absent. *)
Definition present (x : option str) : option str :=
  match x with
  | Some (c :: s) => Some (c :: s)
  | _ => None
  end.

(** A text made of digits, as [str.isdigit] has them, and commas, with at
    least one digit. *)
Definition numeric_text (v : str) : Prop :=
  (exists c, In c v /\ c <> comma)
  /\ (forall c, In c v -> c = comma \/ PyStr.char_isdigit c = true).


(** The names the six agents of the roster speak under. *)
Definition agent_names : list str :=
  List.map (fun r => py (role_agent r)) roster.

(** The key-value pairs of a dict. *)
Definition entries (v : json) : list (str * json) :=
  match v with
  | JObj d => d
  | _ => []
  end.

(** A dict with at least one key. *)
Definition nonempty_dict (v : json) : Prop :=
  exists k x d, v = JObj ((k, x) :: d).

(** An ASCII character that is no white space. *)
Definition plain (c : N) : bool := (c <? 128) && negb (PyStr.char_isspace c).

(** The opening message of a run, as the chat records it. *)
Definition opening (lead : Lead) : message :=
  {| msg_role := py "user"; msg_name := py "User";
     msg_content := Some (initial_message lead) |}.

(** A table of lower case that leaves every character outside ASCII as it
    is, to run the termination test on the samples. *)
Definition lower_none (before : str) (c : N) (after : str) : str := [c].

(** A turn of [speaker] under another role than ['user']. *)
Definition turn_as (role speaker content : string) : message :=
  {| msg_role := py role; msg_name := py speaker;
     msg_content := Some (pyq content) |}.

(** A request with every optional field submitted, [dob] as the empty
    text. *)
Definition full_input : LeadInput :=
  {| in_name := Some (py "Bob"); in_income := Some (py "72000");
     in_savings := Some (py "3,500"); in_credit_score := Some (py "710");
     in_dob := Some []; in_lump_sum := Some [];
     in_monthly_contribution := Some (py "250");
     in_goals := Some (py "college fund") |}.

(** The lead that [full_input] validates to. *)
Definition full_lead : Lead :=
  {| name := py "Bob"; income := py "72000"; savings := py "3,500";
     credit_score := Some (py "710"); dob := Some []; lump_sum := None;
     monthly_contribution := Some (py "250"); goals := py "college fund" |}.


(** * Properties *)

(** ** The decoder *)

Section Decoder.

Lemma skip_ws_length (s : str) : (length (skip_ws s) <= length s)%nat.
Proof.
  induction s as [|c s IH]; cbn [skip_ws]; [lia|].
  destruct (is_ws c); cbn [length]; lia.
Qed.

(** Case analysis on the test at the head of an equation. *)
Ltac head_case H :=
  match type of H with
  | (if ?b then _ else _) = _ => destruct b eqn:?
  | match ?x with _ => _ end = _ => destruct x eqn:?
  end.

Lemma scanstring_shorter (n : nat) :
  forall (s acc k r : str),
    (length s <= n)%nat -> scanstring s acc = Some (k, r) ->
    (length r < length s)%nat.
Proof.
  induction n as [|n IH]; intros s acc k r Hn H.
  - destruct s; [discriminate | cbn [length] in Hn; lia].
  - destruct s as [|c s]; [discriminate|]. cbn [scanstring] in H.
    repeat head_case H; subst; try discriminate;
      cbn [length] in *;
      try (injection H as <- <-; lia);
      match type of H with
      | scanstring ?t _ = _ =>
          assert (length r < length t)%nat
            by (eapply IH; [|exact H]; cbn [length]; lia);
          cbn [length] in *; lia
      end.
Qed.

Lemma span_digits_length (s ds r : str) :
  span_digits s = (ds, r) -> (length r <= length s)%nat.
Proof.
  revert ds r. induction s as [|c s IH]; intros ds r H; cbn [span_digits] in H.
  - injection H as <- <-. lia.
  - destruct (is_digit c).
    + destruct (span_digits s) as [ds' r'] eqn:E. injection H as <- <-.
      specialize (IH _ _ eq_refl). cbn [length]. lia.
    + injection H as <- <-. lia.
Qed.

Lemma match_integer_shorter (s ip r : str) (neg : bool) :
  match_integer s = Some (neg, ip, r) -> (length r < length s)%nat.
Proof.
  unfold match_integer. intros H.
  destruct s as [|c s]; [discriminate|].
  destruct (c =? 45).
  - destruct s as [|d s]; [discriminate|].
    destruct (d =? 48); [injection H as <- <- <-; cbn [length]; lia|].
    destruct (is_digit d); [|discriminate].
    destruct (span_digits s) as [ds r'] eqn:E. injection H as <- <- <-.
    apply span_digits_length in E. cbn [length]. lia.
  - destruct (c =? 48); [injection H as <- <- <-; cbn [length]; lia|].
    destruct (is_digit c); [|discriminate].
    destruct (span_digits s) as [ds r'] eqn:E. injection H as <- <- <-.
    apply span_digits_length in E. cbn [length]. lia.
Qed.

Lemma match_frac_length (s r : str) (f : option str) :
  match_frac s = (f, r) -> (length r <= length s)%nat.
Proof.
  unfold match_frac. intros H.
  destruct s as [|d s]; [injection H as <- <-; lia|].
  destruct (d =? 46); [|injection H as <- <-; lia].
  destruct (span_digits s) as [[|x ds] r'] eqn:E; injection H as <- <-;
    [lia|]. apply span_digits_length in E. cbn [length]. lia.
Qed.

Lemma match_exp_length (s r : str) (e : option Z) :
  match_exp s = (e, r) -> (length r <= length s)%nat.
Proof.
  unfold match_exp. intros H.
  destruct s as [|c s]; [injection H as <- <-; lia|].
  destruct ((c =? 101) || (c =? 69)); [|injection H as <- <-; lia].
  destruct s as [|g t].
  - cbn in H. injection H as <- <-. lia.
  - destruct (g =? 45).
    + destruct (span_digits t) as [[|x ds] r'] eqn:E; injection H as <- <-;
        [lia|]. apply span_digits_length in E. cbn [length]. lia.
    + destruct (g =? 43).
      * destruct (span_digits t) as [[|x ds] r'] eqn:E; injection H as <- <-;
          [lia|]. apply span_digits_length in E. cbn [length]. lia.
      * destruct (span_digits (g :: t)) as [[|x ds] r'] eqn:E;
          injection H as <- <-; [lia|].
        apply span_digits_length in E. cbn [length] in *. lia.
Qed.

Lemma match_number_shorter (s r : str) (v : json) :
  match_number s = Ok v r -> (length r < length s)%nat.
Proof.
  unfold match_number. intros H.
  destruct (match_integer s) as [[[neg ip] r1]|] eqn:E1; [|discriminate].
  destruct (match_frac r1) as [f r2] eqn:E2.
  destruct (match_exp r2) as [e r3] eqn:E3.
  apply match_integer_shorter in E1. apply match_frac_length in E2.
  apply match_exp_length in E3.
  destruct f, e; injection H as <- <-; lia.
Qed.

Lemma match_number_fuel (s : str) : match_number s <> OutOfFuel.
Proof.
  unfold match_number.
  destruct (match_integer s) as [[[neg ip] r1]|]; [|discriminate].
  destruct (match_frac r1) as [f r2]. destruct (match_exp r2) as [e r3].
  destruct f, e; discriminate.
Qed.

Lemma strip_prefix_length (p s r : str) :
  strip_prefix p s = Some r -> length s = (length p + length r)%nat.
Proof.
  revert s. induction p as [|a p IH]; intros s H; cbn [strip_prefix] in H.
  - injection H as <-. reflexivity.
  - destruct s as [|b s]; [discriminate|].
    destruct (a =? b); [|discriminate]. cbn [length]. rewrite (IH s H). lia.
Qed.

Lemma constant_shorter (t : string) (v v' : json) (s r : str) :
  (0 < length (py t))%nat ->
  constant t v s = Ok v' r -> (length r < length s)%nat.
Proof.
  unfold constant. intros Ht H.
  destruct (strip_prefix (py t) s) as [r'|] eqn:E; [|discriminate].
  injection H as <- <-. apply strip_prefix_length in E. lia.
Qed.

Lemma constant_fuel (t : string) (v : json) (s : str) :
  constant t v s <> OutOfFuel.
Proof. unfold constant. destruct (strip_prefix (py t) s); discriminate. Qed.

Section Loops.

Variable scan : str -> result json.

Hypothesis scan_shorter :
  forall s v r, scan s = Ok v r -> (length r < length s)%nat.

Lemma array_loop_shorter (n : nat) :
  forall s acc v r,
    array_loop scan n s acc = Ok v r -> (length r < length s)%nat.
Proof.
  induction n as [|n IH]; intros s acc v r H; cbn [array_loop] in H;
    [discriminate|].
  destruct (scan s) as [v0 r0| |] eqn:E0; try discriminate.
  apply scan_shorter in E0.
  pose proof (skip_ws_length r0) as W0.
  destruct (skip_ws r0) as [|c r'] eqn:E1; [discriminate|].
  cbn [length] in W0.
  destruct (c =? 93); [injection H as <- <-; lia|].
  destruct (c =? 44); [|discriminate].
  apply IH in H. pose proof (skip_ws_length r'). lia.
Qed.

Lemma parse_array_shorter (s r : str) (v : json) :
  parse_array scan s = Ok v r -> (length r < length s)%nat.
Proof.
  unfold parse_array. intros H. pose proof (skip_ws_length s) as W.
  destruct (skip_ws s) as [|c r0]; [discriminate|].
  destruct (c =? 93); [injection H as <- <-; cbn [length] in W; lia|].
  apply array_loop_shorter in H. lia.
Qed.

Lemma object_loop_shorter (n : nat) :
  forall s d v r,
    object_loop scan n s d = Ok v r -> (length r < length s)%nat.
Proof.
  induction n as [|n IH]; intros s d v r H; cbn [object_loop] in H;
    [discriminate|].
  destruct s as [|q s]; [discriminate|].
  destruct (q =? 34); [|discriminate].
  destruct (scanstring s []) as [[key r1]|] eqn:E0; [|discriminate].
  apply (scanstring_shorter _ _ _ _ _ (le_n _)) in E0.
  pose proof (skip_ws_length r1) as W1.
  destruct (skip_ws r1) as [|c1 r2]; [discriminate|].
  destruct (c1 =? 58); [|discriminate].
  pose proof (skip_ws_length r2) as W2.
  destruct (scan (skip_ws r2)) as [v0 r3| |] eqn:E2; try discriminate.
  apply scan_shorter in E2.
  pose proof (skip_ws_length r3) as W3.
  destruct (skip_ws r3) as [|c3 r4]; [discriminate|].
  cbn [length] in *.
  destruct (c3 =? 125); [injection H as <- <-; lia|].
  destruct (c3 =? 44); [|discriminate].
  apply IH in H. pose proof (skip_ws_length r4). lia.
Qed.

Lemma parse_object_shorter (s r : str) (v : json) :
  parse_object scan s = Ok v r -> (length r < length s)%nat.
Proof.
  unfold parse_object. intros H. pose proof (skip_ws_length s) as W.
  destruct (skip_ws s) as [|c r0]; [discriminate|].
  destruct (c =? 125); [injection H as <- <-; cbn [length] in W; lia|].
  apply object_loop_shorter in H. lia.
Qed.

(** An object decodes to a dict. *)
Lemma object_loop_dict (n : nat) :
  forall s d v r, object_loop scan n s d = Ok v r -> exists d', v = JObj d'.
Proof.
  induction n as [|n IH]; intros s d v r H; cbn [object_loop] in H;
    [discriminate|].
  repeat head_case H; try discriminate.
  - injection H as <- <-. eauto.
  - apply IH in H. exact H.
Qed.

Lemma parse_object_dict (s r : str) (v : json) :
  parse_object scan s = Ok v r -> exists d, v = JObj d.
Proof.
  unfold parse_object. intros H.
  destruct (skip_ws s) as [|c r0]; [discriminate|].
  destruct (c =? 125); [injection H as <- <-; eauto|].
  apply object_loop_dict in H. exact H.
Qed.

(** When the scanner of the nested values has fuel for every text of
    length at most [bound], so have the loops. *)
Variable bound : nat.

Hypothesis scan_fuel :
  forall s, (length s <= bound)%nat -> scan s <> OutOfFuel.

Lemma array_loop_fuel (n : nat) :
  forall s acc,
    (length s <= bound)%nat -> (length s <= n)%nat -> (0 < n)%nat ->
    array_loop scan n s acc <> OutOfFuel.
Proof.
  induction n as [|n IH]; intros s acc Hb Hn Hpos; [lia|].
  cbn [array_loop].
  destruct (scan s) as [v0 r0| |] eqn:E0; try discriminate.
  - apply scan_shorter in E0.
    pose proof (skip_ws_length r0) as W0.
    destruct (skip_ws r0) as [|c r']; [discriminate|].
    cbn [length] in W0.
    destruct (c =? 93); [discriminate|].
    destruct (c =? 44); [|discriminate].
    pose proof (skip_ws_length r'). apply IH; lia.
  - destruct (scan_fuel s Hb E0).
Qed.

Lemma parse_array_fuel (s : str) :
  (length s <= bound)%nat -> parse_array scan s <> OutOfFuel.
Proof.
  unfold parse_array. intros Hb. pose proof (skip_ws_length s) as W.
  destruct (skip_ws s) as [|c r0]; [discriminate|].
  destruct (c =? 93); [discriminate|].
  apply array_loop_fuel; cbn [length] in *; lia.
Qed.

Lemma object_loop_fuel (n : nat) :
  forall s d,
    (length s <= bound)%nat -> (length s <= n)%nat -> (0 < n)%nat ->
    object_loop scan n s d <> OutOfFuel.
Proof.
  induction n as [|n IH]; intros s d Hb Hn Hpos; [lia|].
  cbn [object_loop].
  destruct s as [|q s]; [discriminate|].
  destruct (q =? 34); [|discriminate].
  destruct (scanstring s []) as [[key r1]|] eqn:E0; [|discriminate].
  apply (scanstring_shorter _ _ _ _ _ (le_n _)) in E0.
  pose proof (skip_ws_length r1) as W1.
  destruct (skip_ws r1) as [|c1 r2]; [discriminate|].
  destruct (c1 =? 58); [|discriminate].
  pose proof (skip_ws_length r2) as W2.
  cbn [length] in *.
  destruct (scan (skip_ws r2)) as [v0 r3| |] eqn:E2; try discriminate.
  - apply scan_shorter in E2.
    pose proof (skip_ws_length r3) as W3.
    destruct (skip_ws r3) as [|c3 r4]; [discriminate|].
    cbn [length] in *.
    destruct (c3 =? 125); [discriminate|].
    destruct (c3 =? 44); [|discriminate].
    pose proof (skip_ws_length r4). apply IH; lia.
  - apply scan_fuel in E2; [destruct E2 | lia].
Qed.

Lemma parse_object_fuel (s : str) :
  (length s <= bound)%nat -> parse_object scan s <> OutOfFuel.
Proof.
  unfold parse_object. intros Hb. pose proof (skip_ws_length s) as W.
  destruct (skip_ws s) as [|c r0]; [discriminate|].
  destruct (c =? 125); [discriminate|].
  apply object_loop_fuel; cbn [length] in *; lia.
Qed.

End Loops.

(** The scanner consumes what it reads. *)
Lemma scan_once_shorter (fuel : nat) :
  forall s v r, scan_once fuel s = Ok v r -> (length r < length s)%nat.
Proof.
  induction fuel as [|f IH]; intros s v r H; cbn [scan_once] in H;
    [discriminate|].
  destruct s as [|c s]; [discriminate|].
  repeat head_case H; try discriminate.
  - injection H as <- <-.
    match goal with
    | E : scanstring _ _ = _ |- _ =>
        apply (scanstring_shorter _ _ _ _ _ (le_n _)) in E
    end. cbn [length]. lia.
  - apply (parse_object_shorter _ IH) in H. cbn [length]. lia.
  - apply (parse_array_shorter _ IH) in H. cbn [length]. lia.
  - apply constant_shorter in H; [exact H | cbn; lia].
  - apply constant_shorter in H; [exact H | cbn; lia].
  - apply constant_shorter in H; [exact H | cbn; lia].
  - apply constant_shorter in H; [exact H | cbn; lia].
  - apply constant_shorter in H; [exact H | cbn; lia].
  - apply constant_shorter in H; [exact H | cbn; lia].
  - apply match_number_shorter in H. exact H.
Qed.

(** Fuel beyond the length of the text is never exhausted. *)
Lemma scan_once_fuel (fuel : nat) :
  forall s, (length s < fuel)%nat -> scan_once fuel s <> OutOfFuel.
Proof.
  induction fuel as [|f IH]; intros s Hf; [lia|].
  cbn [scan_once].
  destruct s as [|c s]; [discriminate|]. cbn [length] in Hf.
  destruct (c =? 34); [destruct (scanstring s []) as [[? ?]|]; discriminate|].
  destruct (c =? 123).
  { apply (parse_object_fuel _ (scan_once_shorter f) (length s)); [|lia].
    intros s' Hs'. apply IH. lia. }
  destruct (c =? 91).
  { apply (parse_array_fuel _ (scan_once_shorter f) (length s)); [|lia].
    intros s' Hs'. apply IH. lia. }
  repeat match goal with
         | |- (if ?b then _ else _) <> _ => destruct b
         end;
    first [apply constant_fuel | apply match_number_fuel].
Qed.

Lemma loads_fuel (s : str) :
  scan_once (S (length s)) (skip_ws s) <> OutOfFuel.
Proof. apply scan_once_fuel. pose proof (skip_ws_length s). lia. Qed.

End Decoder.

(** ** The check on the first character and the decoder *)

Section Prefilter.

Lemma is_ws_isspace (c : N) : is_ws c = true -> PyStr.char_isspace c = true.
Proof.
  unfold is_ws. rewrite !orb_true_iff, !N.eqb_eq.
  intros [[[->| ->]| ->]| ->]; reflexivity.
Qed.

Lemma lstrip_skip_ws (s : str) : PyStr.lstrip (skip_ws s) = PyStr.lstrip s.
Proof.
  induction s as [|c s IH]; [reflexivity|]. cbn [skip_ws].
  destruct (is_ws c) eqn:E; [|reflexivity].
  cbn [PyStr.lstrip]. rewrite (is_ws_isspace c E). exact IH.
Qed.

Lemma lstrip_head (s r : str) (c : N) :
  PyStr.lstrip s = c :: r -> PyStr.char_isspace c = false.
Proof.
  induction s as [|x s IH]; cbn [PyStr.lstrip]; [discriminate|].
  destruct (PyStr.char_isspace x) eqn:E; [exact IH|].
  intros H. injection H as <- <-. exact E.
Qed.

Lemma lstrip_snoc (s : str) (c : N) :
  PyStr.char_isspace c = false ->
  PyStr.lstrip (s ++ [c]) = PyStr.lstrip s ++ [c].
Proof.
  intros Hc. induction s as [|x s IH]; cbn [app PyStr.lstrip].
  - rewrite Hc. reflexivity.
  - destruct (PyStr.char_isspace x); [exact IH | reflexivity].
Qed.

(** [strip] keeps the first character that [lstrip] leaves. *)
Lemma strip_head (s : str) (c : N) :
  PyStr.startswith c (PyStr.strip s) = true ->
  exists r, PyStr.lstrip s = c :: r.
Proof.
  unfold PyStr.strip, PyStr.rstrip.
  destruct (PyStr.lstrip s) as [|x u] eqn:E; [discriminate|].
  cbn [rev]. rewrite (lstrip_snoc _ _ (lstrip_head _ _ _ E)), rev_app_distr.
  cbn [rev app PyStr.startswith]. rewrite N.eqb_eq. intros ->. eauto.
Qed.

Lemma isspace_range (c : N) :
  PyStr.char_isspace c = true -> c <= 32 \/ 133 <= c.
Proof.
  unfold PyStr.char_isspace, PyStr.in_ranges, PyStr.space_ranges.
  cbn [existsb fst snd].
  rewrite !orb_true_iff, !andb_true_iff, !N.leb_le. lia.
Qed.

(** No value starts with a character outside the range of ['!'] to
    U+0084. *)
Lemma scan_once_not_space (fuel : nat) (c : N) (s r : str) (v : json) :
  c <= 32 \/ 133 <= c -> scan_once fuel (c :: s) <> Ok v r.
Proof.
  intros Hc. destruct fuel as [|f]; [discriminate|]. cbn [scan_once].
  repeat match goal with
         | |- context [?x =? ?k] =>
             destruct (N.eqb_spec x k); [lia|]
         end.
  cbn [andb]. unfold match_number, match_integer.
  repeat match goal with
         | |- context [?x =? ?k] =>
             destruct (N.eqb_spec x k); [lia|]
         end.
  replace (is_digit c) with false; [discriminate|].
  symmetry. unfold is_digit. rewrite andb_false_iff, !N.leb_gt. lia.
Qed.

(** A text whose first character, white space apart, is an opening brace
    decodes to a dict when it decodes. *)
Lemma loads_dict (content : str) (v : json) :
  PyStr.startswith lbrace (PyStr.strip content) = true ->
  loads content = Some v -> exists d, v = JObj d.
Proof.
  intros Hb. apply strip_head in Hb as [u Hu].
  rewrite <- lstrip_skip_ws in Hu.
  unfold loads.
  destruct (scan_once (S (length content)) (skip_ws content))
    as [v' r| |] eqn:E; try discriminate.
  intros H. assert (v' = v) as -> by (destruct (skip_ws r); congruence).
  destruct (skip_ws content) as [|c t]; [discriminate|].
  cbn [PyStr.lstrip] in Hu.
  destruct (PyStr.char_isspace c) eqn:Hc.
  - apply isspace_range in Hc.
    destruct (scan_once_not_space _ _ _ _ _ Hc E).
  - injection Hu as -> ->. cbn in E.
    apply parse_object_dict in E. exact E.
Qed.

End Prefilter.

(** What the loop records for a text, case by case. *)
Lemma parse_content_cases (content : str) :
  (looks_like_json content = false ->
   parse_content content = error "Malformed JSON from AI")
  /\ (looks_like_json content = true -> loads content = None ->
      parse_content content = error "Invalid JSON from AI")
  /\ (forall v, looks_like_json content = true -> loads content = Some v ->
      exists d, v = JObj d
                /\ parse_content content
                   = match d with
                     | [] => error "Malformed JSON from AI"
                     | _ :: _ => v
                     end).
Proof.
  unfold parse_content. split; [|split].
  - intros ->. reflexivity.
  - intros -> ->. reflexivity.
  - intros v Hl Hv. rewrite Hl, Hv.
    apply andb_true_iff in Hl as [Hb _].
    destruct (loads_dict content v Hb Hv) as [d ->].
    exists d. split; [reflexivity|]. destruct d; reflexivity.
Qed.

(** ** The validator *)

Section Validator.

Lemma isdigit_unicode_numeric (v : str) :
  PyStr.isdigit (PyStr.remove comma v) = unicode_numeric v.
Proof.
  unfold PyStr.isdigit, unicode_numeric.
  destruct (PyStr.remove comma v); reflexivity.
Qed.

Lemma check_numeric_ok (v : str) :
  (exists s, check_numeric v = inr s) <-> unicode_numeric v = true.
Proof.
  unfold check_numeric. rewrite isdigit_unicode_numeric.
  destruct (unicode_numeric v); simpl; split; intros H; eauto;
    try discriminate; destruct H; discriminate.
Qed.

Lemma required_numeric_ok (v : option str) :
  (exists s, required_numeric v = inr s) <-> unicode_required_numeric v = true.
Proof.
  destruct v as [s|]; simpl.
  - apply check_numeric_ok.
  - split; [intros [? ?]|]; discriminate.
Qed.

Lemma check_numeric_optional_ok (v : option str) :
  (exists o, check_numeric_optional v = inr o)
  <-> unicode_optional_numeric v = true.
Proof.
  destruct v as [[|c s]|];
    cbn [check_numeric_optional unicode_optional_numeric];
    try (split; eauto; fail).
  rewrite isdigit_unicode_numeric.
  destruct (unicode_numeric (c :: s)); cbn [negb]; split; intros H; eauto;
    try discriminate; destruct H; discriminate.
Qed.

Lemma required_ok (v : option str) :
  (exists s, required v = inr s) <-> spec_required v = true.
Proof.
  destruct v; simpl; split; eauto; try discriminate.
  intros [? ?]; discriminate.
Qed.

(** Acceptance, field by field, in terms of Python's digits. *)
Lemma accepted_unicode (r : LeadInput) :
  accepted r <-> unicode_accepts r = true.
Proof.
  unfold accepted, unicode_accepts, Lead_validate.
  rewrite !andb_true_iff.
  rewrite <- !required_ok, <- !required_numeric_ok,
    <- !check_numeric_optional_ok.
  destruct (required (in_name r)), (required_numeric (in_income r)),
    (required_numeric (in_savings r)),
    (check_numeric_optional (in_credit_score r)),
    (check_numeric_optional (in_lump_sum r)),
    (check_numeric_optional (in_monthly_contribution r)),
    (required (in_goals r)); cbn [errors_of];
    (split;
     [ intros [ld Hld]; first [ discriminate Hld | solve [repeat split; eauto] ]
     | intros H; decompose record H; first [ congruence | solve [eauto] ] ]).
Qed.

(** On ASCII characters [str.isdigit] accepts the digits 0 to 9 only. *)
Lemma char_isdigit_ascii (c : N) :
  c < 128 -> PyStr.char_isdigit c = ascii_digit c.
Proof.
  intros Hc.
  assert (Hall : forallb (fun n => Bool.eqb (PyStr.char_isdigit (N.of_nat n))
                                     (ascii_digit (N.of_nat n)))
                   (seq 0 128) = true) by (vm_compute; reflexivity).
  rewrite forallb_forall in Hall.
  specialize (Hall (N.to_nat c)).
  rewrite N2Nat.id in Hall. apply eqb_prop, Hall.
  apply in_seq. lia.
Qed.

Lemma forallb_digits_ascii (v : str) :
  is_ascii v = true ->
  forallb PyStr.char_isdigit (PyStr.remove comma v)
  = forallb (fun c => ascii_digit c || (c =? comma)) (PyStr.remove comma v).
Proof.
  unfold PyStr.remove.
  induction v as [|c v IH]; cbn [is_ascii forallb List.filter];
    [reflexivity|].
  rewrite andb_true_iff, N.ltb_lt. intros [Hc Hv].
  destruct (N.eqb_spec c comma) as [Heq|Hne]; cbn [negb forallb].
  - apply IH, Hv.
  - apply N.eqb_neq in Hne.
    rewrite char_isdigit_ascii, Hne, orb_false_r, (IH Hv) by exact Hc.
    reflexivity.
Qed.

Lemma unicode_numeric_ascii (v : str) :
  is_ascii v = true -> unicode_numeric v = spec_numeric v.
Proof.
  intros Hv. unfold unicode_numeric, spec_numeric, matches_digits_commas.
  pose proof (forallb_digits_ascii v Hv) as H.
  destruct (PyStr.remove comma v); [reflexivity | exact H].
Qed.

Lemma unicode_accepts_ascii (r : LeadInput) :
  ascii_numeric_fields r = true -> unicode_accepts r = spec_accepts r.
Proof.
  unfold ascii_numeric_fields, unicode_accepts, spec_accepts.
  rewrite !andb_true_iff. intros [[[[Hi Hs] Hc] Hl] Hm].
  assert (Hreq : forall o, ascii_opt o = true ->
                           unicode_required_numeric o = spec_required_numeric o).
  { intros [s|] H; simpl; [apply unicode_numeric_ascii, H | reflexivity]. }
  assert (Hopt : forall o, ascii_opt o = true ->
                           unicode_optional_numeric o = spec_optional_numeric o).
  { intros [[|c s]|] H; simpl; try reflexivity.
    apply unicode_numeric_ascii, H. }
  rewrite (Hreq _ Hi), (Hreq _ Hs), (Hopt _ Hc), (Hopt _ Hl), (Hopt _ Hm).
  reflexivity.
Qed.

End Validator.

Example income_with_separator_accepted :
  accepted (lead_input (py "50,000") (py "1,200") None).
Proof. apply accepted_unicode. reflexivity. Qed.

Example income_with_letter_rejected :
  ~ accepted (lead_input (py "50k") (py "1,200") None).
Proof. rewrite accepted_unicode. discriminate. Qed.

Example empty_credit_score_absent :
  Lead_validate (lead_input (py "50,000") (py "1,200") (Some [])) = inr ada.
Proof. reflexivity. Qed.

(** C1, as stated, fails: an income made of the single character U+0663
    (ARABIC-INDIC DIGIT THREE) does not match [^[0-9,]+$], yet
    [str.isdigit] holds of it and the validator accepts the lead. *)
Lemma non_ascii_digit_accepted :
  accepted (lead_input [1635] (py "1,200") None)
  /\ spec_accepts (lead_input [1635] (py "1,200") None) = false.
Proof. split; [apply accepted_unicode|]; reflexivity. Qed.

(** C1, amended: the validator accepts a request exactly when name, income,
    savings and goals are present and income, savings and every non-empty
    credit_score, lump_sum and monthly_contribution, with the commas
    removed, is a non-empty string of characters that Python's
    [str.isdigit] accepts; an empty or absent optional field counts as not
    present. When the numeric fields hold ASCII characters only, that is
    the rule of the specification: with the commas removed, the field
    matches [^[0-9,]+$]. *)
Theorem Lead_validate_accepts (r : LeadInput) :
  (accepted r <-> unicode_accepts r = true)
  /\ (ascii_numeric_fields r = true -> (accepted r <-> spec_accepts r = true)).
Proof.
  split; [apply accepted_unicode|].
  intros H. rewrite accepted_unicode, (unicode_accepts_ascii r H). reflexivity.
Qed.

Lemma Lead_validate_accepts_witness :
  ascii_numeric_fields (lead_input (py "50,000") (py "1,200") (Some [])) = true
  /\ (accepted (lead_input (py "50,000") (py "1,200") (Some []))
      <-> spec_accepts (lead_input (py "50,000") (py "1,200") (Some [])) = true).
Proof.
  split; [reflexivity|].
  apply (Lead_validate_accepts
           (lead_input (py "50,000") (py "1,200") (Some []))).
  reflexivity.
Defined.

(** ** Extraction *)

Section Extraction.

Lemma extract_single (m : message) :
  from_agent m = true ->
  extract [m] !! msg_name m
  = Some (parse_content (default [] (msg_content m))).
Proof.
  intros H. unfold extract. cbn [fold_left]. unfold process_message.
  rewrite H. apply lookup_insert_eq.
Qed.

End Extraction.

(** C2, as stated, fails on its second example: ["{bad"] does not end with
    a closing brace, so it is stopped by the check on the first and last
    character and never reaches the decoder; the error recorded for it is
    the one for malformed text. *)
Lemma open_brace_text_not_invalid :
  extract [turn "LeadQualificationAgent" "{bad"] !! py "LeadQualificationAgent"
  <> Some (error "Invalid JSON from AI").
Proof. vm_compute. discriminate. Qed.

(** C2, amended: for a turn of an agent, the text ["not json"] is recorded
    as [{"error": "Malformed JSON from AI"}]; so is ["{bad"], which fails
    the check on its last character; ["{bad}"], which passes that check and
    fails to decode, is recorded as [{"error": "Invalid JSON from AI"}];
    and [{"priority":"high","reasoning":"x"}] is recorded as the decoded
    mapping. *)
Theorem extractor_examples (m : message) :
  from_agent m = true ->
  (msg_content m = Some (py "not json") ->
   extract [m] !! msg_name m = Some (error "Malformed JSON from AI"))
  /\ (msg_content m = Some (py "{bad") ->
      extract [m] !! msg_name m = Some (error "Malformed JSON from AI"))
  /\ (msg_content m = Some (py "{bad}") ->
      extract [m] !! msg_name m = Some (error "Invalid JSON from AI"))
  /\ (msg_content m = Some (pyq "{'priority':'high','reasoning':'x'}") ->
      extract [m] !! msg_name m
      = Some (JObj [(py "priority", JStr (py "high"));
                    (py "reasoning", JStr (py "x"))])).
Proof.
  intros H. rewrite (extract_single m H).
  repeat split; intros ->; vm_compute; reflexivity.
Qed.

Lemma extractor_examples_witness :
  from_agent (turn "LeadQualificationAgent" "{bad}") = true
  /\ msg_content (turn "LeadQualificationAgent" "{bad}") = Some (py "{bad}")
  /\ extract [turn "LeadQualificationAgent" "{bad}"]
       !! py "LeadQualificationAgent"
     = Some (error "Invalid JSON from AI").
Proof.
  split; [reflexivity|]. split; [reflexivity|].
  apply (extractor_examples (turn "LeadQualificationAgent" "{bad}")
           eq_refl).
  reflexivity.
Defined.

(** C3 on the text ["{}"]: it passes the check on the first and last
    character and decodes to the empty mapping, and what is recorded for
    the agent is the error for malformed text, not the decoded mapping. *)
Theorem empty_object_recorded_as_malformed :
  loads (py "{}") = Some (JObj [])
  /\ extract [turn "PolicyAdvisorAgent" "{}"] !! py "PolicyAdvisorAgent"
     = Some (error "Malformed JSON from AI").
Proof. split; vm_compute; reflexivity. Qed.

(** ** Assembly and the loop over the transcript *)

Section Transcript.

Lemma extract_snoc (msgs : list message) (m : message) :
  extract (msgs ++ [m]) = process_message (extract msgs) m.
Proof. unfold extract. rewrite fold_left_app. reflexivity. Qed.

Lemma turns_of_snoc (r : str) (msgs : list message) (m : message) :
  turns_of r (msgs ++ [m])
  = turns_of r msgs
    ++ (if from_agent m && bool_decide (msg_name m = r) then [m] else []).
Proof. unfold turns_of. rewrite List.filter_app. reflexivity. Qed.

(** [results] holds, for each name, what its last turn left. *)
Lemma extract_lookup (msgs : list message) (r : str) :
  extract msgs !! r = recorded <$> last (turns_of r msgs).
Proof.
  induction msgs as [|m msgs IH] using rev_ind.
  - reflexivity.
  - rewrite extract_snoc, turns_of_snoc. unfold process_message.
    destruct (from_agent m) eqn:Hm; cbn [andb].
    + destruct (decide (msg_name m = r)) as [Heq|Hne].
      * rewrite bool_decide_eq_true_2 by exact Heq.
        rewrite last_snoc, <- Heq, lookup_insert_eq. reflexivity.
      * rewrite bool_decide_eq_false_2 by exact Hne.
        rewrite app_nil_r, lookup_insert_ne by exact Hne. exact IH.
    + rewrite app_nil_r. exact IH.
Qed.

Lemma process_message_driver (results : gmap str json) (m : message) :
  msg_name m = py "User" -> process_message results m = results.
Proof.
  intros H. unfold process_message, from_agent.
  rewrite (bool_decide_eq_true_2 _ H), andb_false_r. reflexivity.
Qed.

Lemma turns_of_driver (msgs : list message) : turns_of (py "User") msgs = [].
Proof.
  unfold turns_of, from_agent. induction msgs as [|m msgs IH]; [reflexivity|].
  cbn [List.filter].
  destruct (bool_decide (msg_name m = py "User")); cbn [negb andb];
    rewrite ?andb_false_r; cbn [andb]; exact IH.
Qed.

End Transcript.

(** C4: for every transcript, the empty one included, [ai_analysis] is a
    mapping with exactly the six keys qualification, financial_strategy,
    policy, anti_iul_critique, risk_assessment and followup, in that order;
    each key holds what was recorded for the role's agent when there is
    something, and otherwise the role's placeholder, whose keys are the
    role's fields and whose values are all ["N/A"]. *)
Theorem composite_has_six_roles (msgs : list message) :
  ai_analysis (extract msgs)
  = JObj (List.map (composite_entry (extract msgs)) roster)
  /\ List.map fst (List.map (composite_entry (extract msgs)) roster)
     = List.map py ["qualification"; "financial_strategy"; "policy";
                    "anti_iul_critique"; "risk_assessment"; "followup"]%string
  /\ ai_analysis (extract [])
     = JObj (List.map (fun r => (py (role_key r), placeholder (role_fields r)))
               roster).
Proof.
  split; [|split]; reflexivity.
Qed.

(** C5: a turn whose name is that of the driving participant, ['User'], is
    passed over whatever its content, a valid JSON object included: the
    transcript yields the same [results] with the turn as without it, and
    [results] never has an entry under that name. *)
Theorem driver_turn_skipped (pre post : list message) (m : message) :
  msg_name m = py "User" ->
  extract (pre ++ m :: post) = extract (pre ++ post)
  /\ extract (pre ++ m :: post) !! py "User" = None.
Proof.
  intros H. split.
  - unfold extract. rewrite !fold_left_app. cbn [fold_left].
    rewrite (process_message_driver _ m H). reflexivity.
  - rewrite extract_lookup, turns_of_driver. reflexivity.
Qed.

Lemma driver_turn_skipped_witness :
  msg_name (turn "User" "{'priority':'high'}") = py "User"
  /\ extract ([turn "FollowupAgent" "{'subject':'s'}"]
              ++ turn "User" "{'priority':'high'}"
              :: [turn "AntiIULAgent" "no"])
     = extract ([turn "FollowupAgent" "{'subject':'s'}"]
                ++ [turn "AntiIULAgent" "no"]).
Proof.
  split; [reflexivity|].
  apply (driver_turn_skipped [turn "FollowupAgent" "{'subject':'s'}"]
           [turn "AntiIULAgent" "no"]
           (turn "User" "{'priority':'high'}")).
  reflexivity.
Defined.

(** C7: for every transcript and every role, what [results] holds for the
    role is what the last of the role's turns left, and nothing when the
    role has no turn; so when a role has two or more turns, one value is
    recorded for it, that of the last turn. *)
Theorem last_write_wins (msgs : list message) (r : str) :
  extract msgs !! r = recorded <$> last (turns_of r msgs)
  /\ (forall a b c m1 m2,
        msgs = a ++ m1 :: b ++ m2 :: c ->
        from_agent m1 = true -> msg_name m1 = r ->
        from_agent m2 = true -> msg_name m2 = r ->
        turns_of r c = [] ->
        extract msgs !! r = Some (recorded m2)).
Proof.
  split; [apply extract_lookup|].
  intros a b c m1 m2 -> _ _ H2 N2 Hc.
  rewrite extract_lookup.
  replace (a ++ m1 :: b ++ m2 :: c) with ((a ++ m1 :: b) ++ [m2] ++ c)
    by (rewrite <- !app_assoc; reflexivity).
  unfold turns_of in *. rewrite !List.filter_app, Hc, app_nil_r.
  cbn [List.filter]. rewrite H2, (bool_decide_eq_true_2 _ N2). cbn [andb].
  rewrite last_snoc. reflexivity.
Qed.

Lemma last_write_wins_witness :
  extract ([] ++ turn "FollowupAgent" "first"
              :: [turn "AntiIULAgent" "{'critique':'c'}"]
              ++ turn "FollowupAgent" "{'subject':'s','body':'b'}"
              :: [turn "User" "OK."])
    !! py "FollowupAgent"
  = Some (recorded (turn "FollowupAgent" "{'subject':'s','body':'b'}")).
Proof.
  apply (proj2 (last_write_wins _ (py "FollowupAgent")) []
           [turn "AntiIULAgent" "{'critique':'c'}"]
           [turn "User" "OK."]
           (turn "FollowupAgent" "first")
           (turn "FollowupAgent" "{'subject':'s','body':'b'}"));
    reflexivity.
Defined.

(** ** The pipeline *)

Section Runs.

Variable json_dumps : json -> str.

(** The three ways a run ends. *)
Lemma run_chat_raises (w : world) (lead : Lead) (s : sheet) (e : exn) :
  a_initiate_chat w (initial_message lead) = inl e ->
  process_lead_pipeline json_dumps w lead s = (handler e, s).
Proof.
  intros H.
  unfold process_lead_pipeline, try_except, pipeline_body, bind, lift.
  rewrite H. reflexivity.
Qed.

Lemma run_append_raises (w : world) (lead : Lead) (s : sheet)
  (msgs : list message) (e : exn) :
  a_initiate_chat w (initial_message lead) = inr msgs ->
  append_row w (ledger_row json_dumps lead (ai_analysis (extract msgs))) = Some e ->
  process_lead_pipeline json_dumps w lead s
  = (handler e,
     {| rows := rows s;
        calls := calls s
                 ++ [ledger_row json_dumps lead (ai_analysis (extract msgs))] |}).
Proof.
  intros H1 H2.
  unfold process_lead_pipeline, try_except, pipeline_body, bind, lift,
    sheet_append_row.
  rewrite H1, H2. reflexivity.
Qed.

Lemma run_succeeds (w : world) (lead : Lead) (s : sheet)
  (msgs : list message) :
  a_initiate_chat w (initial_message lead) = inr msgs ->
  append_row w (ledger_row json_dumps lead (ai_analysis (extract msgs))) = None ->
  process_lead_pipeline json_dumps w lead s
  = ({| resp_status := py "success";
        resp_message := py "Lead processed successfully!";
        resp_ai_analysis := Some (json_dumps (ai_analysis (extract msgs))) |},
     {| rows := rows s
                ++ [ledger_row json_dumps lead (ai_analysis (extract msgs))];
        calls := calls s
                 ++ [ledger_row json_dumps lead (ai_analysis (extract msgs))] |}).
Proof.
  intros H1 H2.
  unfold process_lead_pipeline, try_except, pipeline_body, bind, lift,
    sheet_append_row, ret.
  rewrite H1, H2. reflexivity.
Qed.


Lemma handler_status (e : exn) : resp_status (handler e) <> py "success".
Proof. destruct e; cbn; discriminate. Qed.

End Runs.







(** C10: in every run whose reply has status ["success"], the text in the
    reply's [ai_analysis] is the ninth and last column of the one row the
    run added to the spreadsheet. *)
Theorem response_matches_ledger (json_dumps : json -> str) (w : world)
  (lead : Lead) (s : sheet) :
  resp_status (fst (process_lead_pipeline json_dumps w lead s)) = py "success" ->
  exists text row,
    resp_ai_analysis (fst (process_lead_pipeline json_dumps w lead s)) = Some text
    /\ rows (snd (process_lead_pipeline json_dumps w lead s)) = rows s ++ [row]
    /\ length row = 9%nat
    /\ row !! 8%nat = Some text.
Proof.
  intros S.
  destruct (a_initiate_chat w (initial_message lead)) as [e|msgs] eqn:H.
  - rewrite (run_chat_raises json_dumps w lead s e H) in S.
    destruct (handler_status e S).
  - destruct (append_row w (ledger_row json_dumps lead (ai_analysis (extract msgs))))
      as [e|] eqn:E.
    + rewrite (run_append_raises json_dumps w lead s msgs e H E) in S.
      destruct (handler_status e S).
    + rewrite (run_succeeds json_dumps w lead s msgs H E).
      exists (json_dumps (ai_analysis (extract msgs))),
        (ledger_row json_dumps lead (ai_analysis (extract msgs))).
      repeat split.
Qed.

Lemma response_matches_ledger_witness :
  exists text row,
    resp_ai_analysis
      (fst (process_lead_pipeline Printer.print (world_of transcript None) bob
              used_sheet)) = Some text
    /\ rows (snd (process_lead_pipeline Printer.print
                    (world_of transcript None) bob used_sheet))
       = rows used_sheet ++ [row]
    /\ length row = 9%nat
    /\ row !! 8%nat = Some text.
Proof.
  apply (response_matches_ledger Printer.print (world_of transcript None) bob
           used_sheet).
  reflexivity.
Defined.

(** * Further properties of the code *)

(** ** The validators *)

Section Validators.

Lemma remove_comma_insert (a b : str) :
  PyStr.remove comma (a ++ comma :: b) = PyStr.remove comma (a ++ b).
Proof.
  unfold PyStr.remove. rewrite !List.filter_app. reflexivity.
Qed.

Lemma unicode_numeric_insert (a b : str) :
  unicode_numeric (a ++ comma :: b) = unicode_numeric (a ++ b).
Proof. unfold unicode_numeric. rewrite remove_comma_insert. reflexivity. Qed.

Lemma remove_commas_only (n : nat) : PyStr.remove comma (repeat comma n) = [].
Proof. induction n as [|n IH]; [reflexivity | exact IH]. Qed.

Lemma unicode_numeric_spec (v : str) :
  unicode_numeric v = true <-> numeric_text v.
Proof.
  unfold unicode_numeric, numeric_text.
  assert (Hin : forall c, In c (PyStr.remove comma v) <-> In c v /\ c <> comma).
  { intros c. unfold PyStr.remove.
    rewrite filter_In, negb_true_iff, N.eqb_neq. reflexivity. }
  destruct (PyStr.remove comma v) as [|x w] eqn:E.
  - split; [discriminate|]. intros [[c Hc] _].
    apply Hin in Hc. destruct Hc.
  - rewrite forallb_forall. split.
    + intros H. split.
      * exists x. apply Hin. left. reflexivity.
      * intros c Hc. destruct (N.eq_dec c comma) as [|Hne]; [left; assumption|].
        right. apply H, Hin. split; assumption.
    + intros [_ H] c Hc. apply Hin in Hc as [Hc Hne].
      destruct (H c Hc) as [|Hd]; [contradiction | exact Hd].
Qed.

Lemma check_numeric_inr (v s : str) :
  check_numeric v = inr s -> s = v /\ unicode_numeric v = true.
Proof.
  unfold check_numeric. rewrite isdigit_unicode_numeric.
  destruct (unicode_numeric v); cbn [negb]; [|discriminate].
  intros H. injection H as <-. split; reflexivity.
Qed.

Lemma required_inr (o : option str) (s : str) :
  required o = inr s -> o = Some s.
Proof. destruct o; cbn; [|discriminate]. intros H. injection H as <-. reflexivity. Qed.

Lemma required_numeric_inr (o : option str) (s : str) :
  required_numeric o = inr s -> o = Some s /\ unicode_numeric s = true.
Proof.
  destruct o as [v|]; cbn; [|discriminate].
  intros H. apply check_numeric_inr in H as [-> H]. split; [reflexivity | exact H].
Qed.

Lemma check_numeric_optional_inr (o o' : option str) :
  check_numeric_optional o = inr o' ->
  o' = present o /\ (forall v, o' = Some v -> unicode_numeric v = true).
Proof.
  destruct o as [[|c v]|]; cbn [check_numeric_optional present].
  - intros H. injection H as <-. split; [reflexivity | discriminate].
  - rewrite isdigit_unicode_numeric.
    destruct (unicode_numeric (c :: v)) eqn:E; cbn [negb]; [|discriminate].
    intros H. injection H as <-. split; [reflexivity|].
    intros w Hw. injection Hw as <-. exact E.
  - intros H. injection H as <-. split; [reflexivity | discriminate].
Qed.

(** What an accepting validation says of each field. *)
Lemma Lead_validate_inr (r : LeadInput) (l : Lead) :
  Lead_validate r = inr l ->
  required (in_name r) = inr (name l)
  /\ required_numeric (in_income r) = inr (income l)
  /\ required_numeric (in_savings r) = inr (savings l)
  /\ check_numeric_optional (in_credit_score r) = inr (credit_score l)
  /\ dob l = in_dob r
  /\ check_numeric_optional (in_lump_sum r) = inr (lump_sum l)
  /\ check_numeric_optional (in_monthly_contribution r)
     = inr (monthly_contribution l)
  /\ required (in_goals r) = inr (goals l).
Proof.
  unfold Lead_validate.
  destruct (required (in_name r)), (required_numeric (in_income r)),
    (required_numeric (in_savings r)),
    (check_numeric_optional (in_credit_score r)),
    (check_numeric_optional (in_lump_sum r)),
    (check_numeric_optional (in_monthly_contribution r)),
    (required (in_goals r)); intros H; try discriminate H.
  injection H as <-. cbn. repeat split.
Qed.

End Validators.

(** X1: a comma may stand anywhere in a numeric value, and in any number:
    putting one more comma at any place changes nothing to what
    [check_numeric] decides, nor to what [check_numeric_optional] decides of
    a non-empty value. A value made of commas only is refused by
    [check_numeric], and by [check_numeric_optional] unless it is empty. *)
Theorem commas_anywhere (a b : str) :
  ((exists s, check_numeric (a ++ b) = inr s)
   <-> (exists s, check_numeric (a ++ comma :: b) = inr s))
  /\ (a ++ b <> [] ->
      ((exists o, check_numeric_optional (Some (a ++ b)) = inr o)
       <-> (exists o, check_numeric_optional (Some (a ++ comma :: b)) = inr o)))
  /\ (forall n s, check_numeric (repeat comma n) <> inr s)
  /\ (forall n o, check_numeric_optional (Some (repeat comma (S n))) <> inr o).
Proof.
  split; [|split; [|split]].
  - rewrite !check_numeric_ok, unicode_numeric_insert. reflexivity.
  - intros Hne. rewrite !check_numeric_optional_ok.
    assert (Hopt : forall v, v <> [] ->
                             unicode_optional_numeric (Some v) = unicode_numeric v).
    { intros [|c v] H; [contradiction | reflexivity]. }
    rewrite (Hopt _ Hne), Hopt, unicode_numeric_insert; [reflexivity|].
    destruct a; discriminate.
  - intros n s H. apply check_numeric_inr in H as [_ H].
    unfold unicode_numeric in H. rewrite remove_commas_only in H. discriminate.
  - intros n o H. apply check_numeric_optional_inr in H as [-> H].
    specialize (H _ eq_refl).
    change (unicode_numeric (repeat comma (S n)) = true) in H.
    unfold unicode_numeric in H.
    rewrite (remove_commas_only (S n)) in H. discriminate.
Qed.

Lemma commas_anywhere_witness :
  py "12" ++ py "345" <> []
  /\ ((exists o, check_numeric_optional (Some (py "12" ++ py "345")) = inr o)
      <-> (exists o, check_numeric_optional (Some (py "12" ++ comma :: py "345"))
                     = inr o)).
Proof.
  split; [discriminate|].
  apply (commas_anywhere (py "12") (py "345")). discriminate.
Defined.

(** X2: the validators hand back what they are given. In an accepted
    request name, income, savings and goals are present and the lead holds
    their text unchanged, commas included; [dob] is taken over as it is,
    whatever it holds; credit_score, lump_sum and monthly_contribution are
    taken over as they are when they hold text, and are [None] when they
    are absent or empty. *)
Theorem validated_lead_echoes_request (r : LeadInput) (l : Lead) :
  Lead_validate r = inr l ->
  in_name r = Some (name l) /\ in_income r = Some (income l)
  /\ in_savings r = Some (savings l) /\ in_goals r = Some (goals l)
  /\ dob l = in_dob r
  /\ credit_score l = present (in_credit_score r)
  /\ lump_sum l = present (in_lump_sum r)
  /\ monthly_contribution l = present (in_monthly_contribution r).
Proof.
  intros H.
  apply Lead_validate_inr in H as (Hn & Hi & Hs & Hc & Hd & Hl & Hm & Hg).
  apply required_inr in Hn, Hg.
  apply required_numeric_inr in Hi as [Hi _], Hs as [Hs _].
  apply check_numeric_optional_inr in Hc as [Hc _], Hl as [Hl _], Hm as [Hm _].
  repeat split; assumption.
Qed.

Lemma validated_lead_echoes_request_witness :
  Lead_validate full_input = inr full_lead
  /\ dob full_lead = in_dob full_input
  /\ lump_sum full_lead = present (in_lump_sum full_input).
Proof.
  split; [reflexivity|].
  pose proof (validated_lead_echoes_request full_input full_lead eq_refl) as H.
  split; apply H.
Defined.

(** X3: a validated lead holds numeric text only. Its income and savings,
    and its credit_score, lump_sum and monthly_contribution when they are
    not [None], are made of digits and commas and hold at least one digit;
    none of the three optional fields is ever the empty text. *)
Theorem validated_lead_numeric (r : LeadInput) (l : Lead) :
  Lead_validate r = inr l ->
  numeric_text (income l) /\ numeric_text (savings l)
  /\ (forall v, credit_score l = Some v -> v <> [] /\ numeric_text v)
  /\ (forall v, lump_sum l = Some v -> v <> [] /\ numeric_text v)
  /\ (forall v, monthly_contribution l = Some v -> v <> [] /\ numeric_text v).
Proof.
  intros H.
  apply Lead_validate_inr in H as (_ & Hi & Hs & Hc & _ & Hl & Hm & _).
  apply required_numeric_inr in Hi as [_ Hi], Hs as [_ Hs].
  apply check_numeric_optional_inr in Hc as [_ Hc], Hl as [_ Hl], Hm as [_ Hm].
  assert (Hne : forall v, unicode_numeric v = true -> v <> [] /\ numeric_text v).
  { intros v Hv. split; [intros ->; discriminate Hv|].
    apply unicode_numeric_spec, Hv. }
  split; [apply unicode_numeric_spec, Hi|].
  split; [apply unicode_numeric_spec, Hs|].
  split; [|split]; intros v Hv; apply Hne; auto.
Qed.

Lemma validated_lead_numeric_witness :
  Lead_validate full_input = inr full_lead /\ numeric_text (income full_lead).
Proof.
  split; [reflexivity|].
  exact (proj1 (validated_lead_numeric full_input full_lead eq_refl)).
Defined.

(** X4: validation is idempotent. The fields of a validated lead, submitted
    again as a request, are accepted and give the same lead. *)
Theorem revalidation_is_identity (r : LeadInput) (l : Lead) :
  Lead_validate r = inr l -> Lead_validate (input_of l) = inr l.
Proof.
  intros H.
  apply Lead_validate_inr in H as (_ & Hi & Hs & Hc & _ & Hl & Hm & _).
  apply required_numeric_inr in Hi as [_ Hi], Hs as [_ Hs].
  apply check_numeric_optional_inr in Hc as [Hc Hc'], Hl as [Hl Hl'],
    Hm as [Hm Hm'].
  assert (Hopt : forall o, (forall v, o = Some v -> unicode_numeric v = true) ->
                           check_numeric_optional o = inr o \/ o = Some []).
  { intros [[|c v]|] Ho; [right; reflexivity| |left; reflexivity].
    left. cbn [check_numeric_optional].
    rewrite isdigit_unicode_numeric, (Ho _ eq_refl). reflexivity. }
  assert (Hnum : forall v, unicode_numeric v = true -> check_numeric v = inr v).
  { intros v Hv. unfold check_numeric.
    rewrite isdigit_unicode_numeric, Hv. reflexivity. }
  unfold Lead_validate, input_of. cbn [in_name in_income in_savings
    in_credit_score in_dob in_lump_sum in_monthly_contribution in_goals
    required required_numeric].
  rewrite (Hnum _ Hi), (Hnum _ Hs).
  destruct (Hopt _ Hc') as [->|E]; [|rewrite E in Hc'; discriminate (Hc' _ eq_refl)].
  destruct (Hopt _ Hl') as [->|E]; [|rewrite E in Hl'; discriminate (Hl' _ eq_refl)].
  destruct (Hopt _ Hm') as [->|E]; [|rewrite E in Hm'; discriminate (Hm' _ eq_refl)].
  destruct l; reflexivity.
Qed.

Lemma revalidation_is_identity_witness :
  Lead_validate full_input = inr full_lead
  /\ Lead_validate (input_of full_lead) = inr full_lead.
Proof.
  split; [reflexivity|].
  apply (revalidation_is_identity full_input full_lead). reflexivity.
Defined.

(** ** The loop over the transcript *)

Section Loop.

Lemma turns_of_app (r : str) (a b : list message) :
  turns_of r (a ++ b) = turns_of r a ++ turns_of r b.
Proof. unfold turns_of. apply List.filter_app. Qed.

Lemma turns_of_In (r : str) (msgs : list message) (m : message) :
  In m (turns_of r msgs)
  <-> In m msgs /\ from_agent m = true /\ msg_name m = r.
Proof.
  unfold turns_of. rewrite filter_In, andb_true_iff, bool_decide_eq_true.
  reflexivity.
Qed.

(** Whatever the text, the loop records a dict with a key. *)
Lemma parse_content_nonempty (content : str) :
  nonempty_dict (parse_content content).
Proof.
  destruct (parse_content_cases content) as (Hno & Hbad & Hok).
  destruct (looks_like_json content) eqn:El.
  - destruct (loads content) as [v|] eqn:Ev.
    + destruct (Hok v eq_refl eq_refl) as (d & -> & ->).
      destruct d as [|[k x] d]; [|exists k, x, d; reflexivity].
      eexists _, _, _. reflexivity.
    + rewrite (Hbad eq_refl eq_refl). eexists _, _, _. reflexivity.
  - rewrite (Hno eq_refl). eexists _, _, _. reflexivity.
Qed.

Lemma process_message_other_role (results : gmap str json) (m : message) :
  msg_role m <> py "user" -> process_message results m = results.
Proof.
  intros H. unfold process_message, from_agent.
  rewrite (bool_decide_eq_false_2 _ H). reflexivity.
Qed.

Lemma lstrip_blank (w : str) :
  forallb PyStr.char_isspace w = true -> PyStr.lstrip w = [].
Proof.
  induction w as [|c w IH]; [reflexivity|].
  cbn [forallb PyStr.lstrip]. rewrite andb_true_iff. intros [-> H].
  apply IH, H.
Qed.

Lemma looks_like_json_blank (w : str) :
  forallb PyStr.char_isspace w = true -> looks_like_json w = false.
Proof.
  intros H. unfold looks_like_json, PyStr.strip. rewrite (lstrip_blank w H).
  reflexivity.
Qed.

Lemma process_message_commute (results : gmap str json) (m1 m2 : message) :
  msg_name m1 <> msg_name m2 ->
  process_message (process_message results m1) m2
  = process_message (process_message results m2) m1.
Proof.
  intros H. unfold process_message.
  destruct (from_agent m1), (from_agent m2); try reflexivity.
  apply insert_insert_ne. congruence.
Qed.

(** [ai_analysis] reads [results] under the six names of the roster only. *)
Lemma ai_analysis_ext (r1 r2 : gmap str json) :
  (forall k, In k agent_names -> r1 !! k = r2 !! k) ->
  ai_analysis r1 = ai_analysis r2.
Proof.
  intros H. unfold ai_analysis, get.
  rewrite !(H (py _)) by (cbn; tauto). reflexivity.
Qed.

End Loop.

(** X5: [results] has an entry under a name exactly when the transcript
    holds a message of role ['user'] with that name, other than ['User'];
    nothing else puts a key in it, and no such message fails to. *)
Theorem results_keys (msgs : list message) (r : str) :
  is_Some (extract msgs !! r)
  <-> exists m, In m msgs /\ from_agent m = true /\ msg_name m = r.
Proof.
  rewrite extract_lookup, fmap_is_Some, last_is_Some. split.
  - intros H. destruct (turns_of r msgs) as [|m l] eqn:E; [contradiction|].
    exists m. apply turns_of_In. rewrite E. left. reflexivity.
  - intros [m Hm] E. apply turns_of_In in Hm. rewrite E in Hm. destruct Hm.
Qed.

Lemma results_keys_values (msgs : list message) (r : str) (v : json) :
  extract msgs !! r = Some v -> nonempty_dict v.
Proof.
  rewrite extract_lookup. destruct (last (turns_of r msgs)) as [m|];
    [|discriminate].
  intros H. injection H as <-. apply parse_content_nonempty.
Qed.

(** X6: every value in [results] is a dict with at least one key: the
    decoded reply of the agent when it is a non-empty JSON object, an error
    dict otherwise. A list, a string, a number or an empty dict is never
    stored. *)
Theorem results_hold_nonempty_dicts (msgs : list message) (r : str) (v : json) :
  extract msgs !! r = Some v -> nonempty_dict v.
Proof.
  rewrite extract_lookup. intros H.
  destruct (last (turns_of r msgs)) as [m|]; [|discriminate H].
  injection H as <-. unfold recorded. apply parse_content_nonempty.
Qed.

Lemma results_hold_nonempty_dicts_witness :
  extract transcript !! py "FinancialStrategyAgent"
  = Some (error "Malformed JSON from AI")
  /\ nonempty_dict (error "Malformed JSON from AI").
Proof.
  split; [vm_compute; reflexivity|].
  apply (results_hold_nonempty_dicts transcript (py "FinancialStrategyAgent")).
  vm_compute. reflexivity.
Defined.

(** X7: a message whose role is not ['user'] is passed over, whatever its
    name and content: the transcript yields the same [results] with it as
    without it. *)
Theorem other_roles_skipped (pre post : list message) (m : message) :
  msg_role m <> py "user" ->
  extract (pre ++ m :: post) = extract (pre ++ post).
Proof.
  intros H. unfold extract. rewrite !fold_left_app. cbn [fold_left].
  rewrite (process_message_other_role _ m H). reflexivity.
Qed.

Lemma other_roles_skipped_witness :
  msg_role (turn_as "assistant" "FollowupAgent" "{'subject':'s'}") <> py "user"
  /\ extract ([turn "AntiIULAgent" "no"]
              ++ turn_as "assistant" "FollowupAgent" "{'subject':'s'}" :: [])
     = extract ([turn "AntiIULAgent" "no"] ++ []).
Proof.
  split; [discriminate|].
  apply (other_roles_skipped [turn "AntiIULAgent" "no"] []
           (turn_as "assistant" "FollowupAgent" "{'subject':'s'}")).
  discriminate.
Defined.

(** X8: an agent's message without a content key, or whose content is
    empty or white space only, is recorded as
    [{"error": "Malformed JSON from AI"}]; it is not taken for a missing
    reply, and it replaces what an earlier message of the same agent
    left. *)
Theorem blank_reply_is_malformed (pre : list message) (m : message) :
  from_agent m = true ->
  msg_content m = None
  \/ (exists w, msg_content m = Some w
               /\ forallb PyStr.char_isspace w = true) ->
  extract (pre ++ [m]) !! msg_name m = Some (error "Malformed JSON from AI").
Proof.
  intros Hm Hc. rewrite extract_snoc. unfold process_message.
  rewrite Hm, lookup_insert_eq. f_equal.
  apply (parse_content_cases _).
  destruct Hc as [->|(w & -> & Hw)]; [reflexivity|].
  apply looks_like_json_blank, Hw.
Qed.

Lemma blank_reply_is_malformed_witness :
  extract ([turn "AntiIULAgent" "{'critique':'fees'}"]
           ++ [{| msg_role := py "user"; msg_name := py "AntiIULAgent";
                  msg_content := Some [32; 10; 160] |}])
    !! py "AntiIULAgent"
  = Some (error "Malformed JSON from AI").
Proof.
  apply (blank_reply_is_malformed [turn "AntiIULAgent" "{'critique':'fees'}"]
           {| msg_role := py "user"; msg_name := py "AntiIULAgent";
              msg_content := Some [32; 10; 160] |} eq_refl).
  right. exists [32; 10; 160]. split; reflexivity.
Defined.

(** X9: [strip] and [json.loads] differ on white space. A text that looks
    like JSON, put after a character that [str.strip] removes and the JSON
    grammar does not allow (a form feed or a no-break space, say), still
    passes the check on its first and last character and then fails to
    decode: it is recorded as [{"error": "Invalid JSON from AI"}], also when
    the text itself is a valid JSON object. *)
Theorem unicode_space_before_json_is_invalid (c : N) (content : str) :
  looks_like_json content = true ->
  PyStr.char_isspace c = true -> is_ws c = false ->
  looks_like_json (c :: content) = true
  /\ parse_content (c :: content) = error "Invalid JSON from AI".
Proof.
  intros Hl Hc Hw.
  assert (Hl' : looks_like_json (c :: content) = true).
  { unfold looks_like_json, PyStr.strip in *. cbn [PyStr.lstrip].
    rewrite Hc. exact Hl. }
  split; [exact Hl'|].
  apply (parse_content_cases _); [exact Hl'|].
  unfold loads. cbn [skip_ws]. rewrite Hw.
  destruct (scan_once (S (length (c :: content))) (c :: content))
    as [v r| |] eqn:E; try reflexivity.
  destruct (scan_once_not_space _ _ _ _ _ (isspace_range c Hc) E).
Qed.

Lemma unicode_space_before_json_is_invalid_witness :
  loads (pyq "{'critique':'fees'}")
  = Some (JObj [(py "critique", JStr (py "fees"))])
  /\ parse_content (160 :: pyq "{'critique':'fees'}")
     = error "Invalid JSON from AI".
Proof.
  split; [vm_compute; reflexivity|].
  apply (unicode_space_before_json_is_invalid 160 (pyq "{'critique':'fees'}"));
    reflexivity.
Defined.

(** X10: the loop composes over a transcript cut in two: [results] of the
    whole is [results] of the second part, completed by the entries of the
    first part under the names the second part does not mention. *)
Theorem extract_app (a b : list message) :
  extract (a ++ b) = extract b ∪ extract a.
Proof.
  apply map_eq. intros r.
  rewrite lookup_union, !extract_lookup, turns_of_app, last_app.
  destruct (last (turns_of r b)), (last (turns_of r a)); reflexivity.
Qed.

(** X11: two neighbouring messages under different names can be swapped
    without changing [results]: only the order of the messages of one and
    the same name matters. *)
Theorem different_speakers_commute (pre post : list message) (m1 m2 : message) :
  msg_name m1 <> msg_name m2 ->
  extract (pre ++ m1 :: m2 :: post) = extract (pre ++ m2 :: m1 :: post).
Proof.
  intros H. unfold extract. rewrite !fold_left_app. cbn [fold_left].
  rewrite (process_message_commute _ m1 m2 H). reflexivity.
Qed.

Lemma different_speakers_commute_witness :
  msg_name (turn "AntiIULAgent" "no") <> msg_name (turn "FollowupAgent" "{}")
  /\ extract ([] ++ turn "AntiIULAgent" "no" :: turn "FollowupAgent" "{}" :: [])
     = extract ([] ++ turn "FollowupAgent" "{}" :: turn "AntiIULAgent" "no" :: []).
Proof.
  split; [discriminate|].
  apply (different_speakers_commute [] [] (turn "AntiIULAgent" "no")
           (turn "FollowupAgent" "{}")).
  discriminate.
Defined.

(** X12: a message under a name that is none of the six agent names of the
    roster (the chat manager, or any other speaker) leaves [ai_analysis] as
    it is, whatever it says. *)
Theorem other_speakers_ignored (pre post : list message) (m : message) :
  ~ In (msg_name m) agent_names ->
  ai_analysis (extract (pre ++ m :: post)) = ai_analysis (extract (pre ++ post)).
Proof.
  intros H. apply ai_analysis_ext. intros k Hk.
  rewrite !extract_lookup, !turns_of_app. f_equal. f_equal. f_equal.
  unfold turns_of. cbn [List.filter].
  rewrite (bool_decide_eq_false_2 (msg_name m = k)), andb_false_r;
    [reflexivity|].
  intros E. apply H. rewrite E. exact Hk.
Qed.

Lemma other_speakers_ignored_witness :
  ~ In (msg_name (turn "chat_manager" "{'priority':'low'}")) agent_names
  /\ ai_analysis (extract (transcript
                            ++ turn "chat_manager" "{'priority':'low'}" :: []))
     = ai_analysis (extract (transcript ++ [])).
Proof.
  assert (H : ~ In (msg_name (turn "chat_manager" "{'priority':'low'}"))
                agent_names).
  { cbn. intros [E|[E|[E|[E|[E|[E|[]]]]]]]; discriminate E. }
  split; [exact H|].
  apply (other_speakers_ignored transcript []
           (turn "chat_manager" "{'priority':'low'}") H).
Defined.

(** X13: every value of [ai_analysis] is a dict with at least one key,
    for every transcript: a decoded reply, an error dict or a
    placeholder. *)
Theorem composite_values_nonempty_dicts (msgs : list message) (k : str) (v : json) :
  In (k, v) (entries (ai_analysis (extract msgs))) -> nonempty_dict v.
Proof.
  assert (H : forall key fallback,
             nonempty_dict fallback ->
             nonempty_dict (get (extract msgs) key fallback)).
  { intros key fallback Hf. unfold get.
    destruct (extract msgs !! py key) as [x|] eqn:E; [|exact Hf].
    apply (results_keys_values msgs (py key) x E). }
  unfold ai_analysis. cbn [entries In].
  intros [E|[E|[E|[E|[E|[E|[]]]]]]]; injection E as _ <-; apply H;
    eexists _, _, _; reflexivity.
Qed.

Lemma composite_values_nonempty_dicts_witness :
  In (py "followup", JObj [(py "subject", NA); (py "body", NA)])
    (entries (ai_analysis (extract transcript)))
  /\ nonempty_dict (JObj [(py "subject", NA); (py "body", NA)]).
Proof.
  assert (H : In (py "followup", JObj [(py "subject", NA); (py "body", NA)])
                (entries (ai_analysis (extract transcript)))).
  { vm_compute. tauto. }
  split; [exact H|].
  apply (composite_values_nonempty_dicts transcript (py "followup") _ H).
Defined.

(** ** The runs of the pipeline *)

Section Outcome.



End Outcome.







(** ** The termination test *)

Section Termination.

Variable lower_other : str -> N -> str -> str.

Lemma lstrip_app_plain (a r : str) (c : N) :
  PyStr.char_isspace c = false ->
  PyStr.lstrip (a ++ c :: r) = PyStr.lstrip a ++ c :: r.
Proof.
  intros Hc. induction a as [|x a IH]; cbn [app PyStr.lstrip].
  - rewrite Hc. reflexivity.
  - destruct (PyStr.char_isspace x); [exact IH | reflexivity].
Qed.

Lemma lstrip_blank_app (b y : str) :
  forallb PyStr.char_isspace b = true ->
  PyStr.lstrip (b ++ y) = PyStr.lstrip y.
Proof.
  induction b as [|x b IH]; [reflexivity|].
  cbn [forallb app PyStr.lstrip]. rewrite andb_true_iff. intros [-> H].
  apply IH, H.
Qed.

(** [strip] keeps a text between its first and its last character that is
    no white space. *)
Lemma strip_keeps_suffix (a t w : str) :
  t <> [] -> forallb plain t = true ->
  forallb PyStr.char_isspace w = true ->
  PyStr.strip (a ++ t ++ w) = PyStr.lstrip a ++ t.
Proof.
  intros Ht Hp Hw.
  assert (Hns : forall c, In c t -> PyStr.char_isspace c = false).
  { intros c Hc. rewrite forallb_forall in Hp. specialize (Hp c Hc).
    unfold plain in Hp. apply andb_true_iff in Hp as [_ Hp].
    apply negb_true_iff, Hp. }
  unfold PyStr.strip, PyStr.rstrip.
  destruct t as [|c t']; [contradiction|].
  cbn [app]. rewrite (lstrip_app_plain a _ c (Hns c (or_introl eq_refl))).
  change (c :: t' ++ w) with ((c :: t') ++ w).
  rewrite !rev_app_distr, <- app_assoc.
  rewrite lstrip_blank_app
    by (rewrite forallb_forall in *; intros x Hx; apply Hw, in_rev, Hx).
  destruct (rev (c :: t')) as [|z u] eqn:E.
  - apply (f_equal (@length N)) in E. rewrite length_rev in E. discriminate E.
  - assert (Hz : PyStr.char_isspace z = false).
    { apply Hns, in_rev. rewrite E. left. reflexivity. }
    cbn [app PyStr.lstrip]. rewrite Hz.
    change (z :: u ++ rev (PyStr.lstrip a)) with ((z :: u) ++ rev (PyStr.lstrip a)).
    rewrite <- E, rev_app_distr, !rev_involutive. reflexivity.
Qed.

(** The lower case of the end of a text is the end of its lower case. *)
Lemma lower_from_app (x y before : str) :
  exists z,
    lower_from lower_other before (x ++ y)
    = z ++ lower_from lower_other (before ++ x) y.
Proof.
  revert before. induction x as [|c x IH]; intros before; cbn [app lower_from].
  - exists []. rewrite app_nil_r. reflexivity.
  - destruct (IH (before ++ [c])) as [z Hz]. rewrite Hz, <- app_assoc.
    eexists. rewrite app_assoc. reflexivity.
Qed.

(** The lower case of an ASCII text does not depend on what is around
    it. *)
Lemma lower_from_ascii (t b1 b2 : str) :
  forallb plain t = true ->
  lower_from lower_other b1 t = lower_from lower_other b2 t.
Proof.
  revert b1 b2. induction t as [|c t IH]; intros b1 b2; [reflexivity|].
  cbn [forallb lower_from]. rewrite andb_true_iff. intros [Hc Ht].
  unfold plain in Hc. apply andb_true_iff in Hc as [Hc _].
  unfold lower_char. rewrite Hc, (IH (b1 ++ [c]) (b2 ++ [c]) Ht). reflexivity.
Qed.

Lemma has_prefix_app (p q : str) : has_prefix p (p ++ q) = true.
Proof.
  induction p as [|a p IH]; [reflexivity|].
  cbn [app has_prefix]. rewrite N.eqb_refl. exact IH.
Qed.

Lemma has_suffix_app (z t : str) : has_suffix t (z ++ t) = true.
Proof. unfold has_suffix. rewrite rev_app_distr. apply has_prefix_app. Qed.

Lemma termination_suffix (x : message) (a t w : str) :
  msg_content x = Some (a ++ t ++ w) ->
  t <> [] -> forallb plain t = true ->
  forallb PyStr.char_isspace w = true ->
  lower lower_other t = py "terminate" ->
  is_termination_msg lower_other x = true.
Proof.
  intros Hx Ht Hp Hw Hl. unfold is_termination_msg. rewrite Hx.
  change (default [] (Some (a ++ t ++ w))) with (a ++ t ++ w).
  rewrite (strip_keeps_suffix a t w Ht Hp Hw). unfold lower.
  destruct (lower_from_app (PyStr.lstrip a) t []) as [z ->].
  rewrite (lower_from_ascii t _ [] Hp). fold (lower lower_other t).
  rewrite Hl. apply has_suffix_app.
Qed.

Lemma initial_message_ends (lead : Lead) :
  exists a, initial_message lead = a ++ py "TERMINATE" ++ [].
Proof.
  unfold initial_message. eexists. rewrite app_nil_r, !app_assoc. reflexivity.
Qed.

End Termination.

(** X17: the termination test of the driving participant looks at the end
    of the text only, and not at its case: every content that ends, white
    space apart, with an ASCII spelling of the word terminate in any mix
    of upper and lower case passes it, whatever stands before. In
    particular the opening message that the pipeline composes passes the
    test for every lead, since it ends with [TERMINATE]. *)
Theorem terminate_suffix_ends_chat (lower_other : str -> N -> str -> str) :
  (forall (x : message) (a t w : str),
      msg_content x = Some (a ++ t ++ w) ->
      t <> [] -> forallb plain t = true ->
      forallb PyStr.char_isspace w = true ->
      lower lower_other t = py "terminate" ->
      is_termination_msg lower_other x = true)
  /\ (forall lead, is_termination_msg lower_other (opening lead) = true).
Proof.
  split; [apply termination_suffix|].
  intros lead. destruct (initial_message_ends lead) as [a Ha].
  apply (termination_suffix lower_other (opening lead) a (py "TERMINATE") []);
    [exact (f_equal Some Ha) | discriminate | reflexivity | reflexivity
    | reflexivity].
Qed.

Lemma terminate_suffix_ends_chat_witness :
  msg_content (turn "FollowupAgent" "{'body':'b'} Terminate ")
  = Some (pyq "{'body':'b'} " ++ py "Terminate" ++ py " ")
  /\ is_termination_msg lower_none
       (turn "FollowupAgent" "{'body':'b'} Terminate ") = true.
Proof.
  split; [reflexivity|].
  apply (proj1 (terminate_suffix_ends_chat lower_none)
           (turn "FollowupAgent" "{'body':'b'} Terminate ")
           (pyq "{'body':'b'} ") (py "Terminate") (py " "));
    [reflexivity | discriminate | reflexivity | reflexivity | reflexivity].
Defined.

(** ** JSON white space around a reply *)

Section Padding.

(** The text put after a reply: JSON white space only. *)
Variable w : str.
Hypothesis w_ws : forallb is_ws w = true.

Lemma is_ws_cases (c : N) :
  is_ws c = true -> c = 32 \/ c = 9 \/ c = 10 \/ c = 13.
Proof.
  unfold is_ws. rewrite !orb_true_iff, !N.eqb_eq. tauto.
Qed.

(** What follows the reply starts no token. *)
Lemma w_head : w = [] \/ exists c w', w = c :: w' /\ is_ws c = true.
Proof.
  destruct w as [|c w'] eqn:E; [left; reflexivity|]. right.
  exists c, w'. split; [reflexivity|].
  cbn in w_ws. apply andb_true_iff in w_ws. tauto.
Qed.

Lemma skip_ws_w : skip_ws w = [].
Proof.
  clear -w_ws. induction w as [|c w' IH]; [reflexivity|].
  cbn in *. apply andb_true_iff in w_ws as [-> H]. apply IH, H.
Qed.

Lemma skip_ws_app_cons (s t : str) (c : N) :
  skip_ws s = c :: t -> skip_ws (s ++ w) = c :: t ++ w.
Proof.
  induction s as [|x s IH]; cbn [app skip_ws]; [discriminate|].
  destruct (is_ws x); [exact IH|]. intros H. injection H as <- <-. reflexivity.
Qed.

Lemma skip_ws_app_nil (s : str) :
  skip_ws s = [] -> skip_ws (s ++ w) = [].
Proof.
  induction s as [|x s IH]; cbn [app skip_ws]; [intros _; apply skip_ws_w|].
  destruct (is_ws x); [exact IH | discriminate].
Qed.

Lemma span_digits_app (s ds r : str) :
  span_digits s = (ds, r) -> span_digits (s ++ w) = (ds, r ++ w).
Proof.
  revert ds r. induction s as [|c s IH]; intros ds r H; cbn [app span_digits] in *.
  - injection H as <- <-.
    destruct w_head as [->|(c & w' & -> & Hc)]; [reflexivity|].
    cbn [span_digits]. apply is_ws_cases in Hc.
    destruct Hc as [->|[->|[->| ->]]]; reflexivity.
  - destruct (is_digit c).
    + destruct (span_digits s) as [ds' r'] eqn:E. injection H as <- <-.
      rewrite (IH _ _ eq_refl). reflexivity.
    + injection H as <- <-. reflexivity.
Qed.

Lemma match_integer_app (s ip r : str) (neg : bool) :
  match_integer s = Some (neg, ip, r) ->
  match_integer (s ++ w) = Some (neg, ip, r ++ w).
Proof.
  unfold match_integer. intros H.
  destruct s as [|c s]; [discriminate|]. cbn [app].
  destruct (c =? 45).
  - destruct s as [|d s]; [discriminate|]. cbn [app].
    destruct (d =? 48); [injection H as <- <- <-; reflexivity|].
    destruct (is_digit d); [|discriminate].
    destruct (span_digits s) as [ds r'] eqn:E. injection H as <- <- <-.
    rewrite (span_digits_app _ _ _ E). reflexivity.
  - destruct (c =? 48); [injection H as <- <- <-; reflexivity|].
    destruct (is_digit c); [|discriminate].
    destruct (span_digits s) as [ds r'] eqn:E. injection H as <- <- <-.
    rewrite (span_digits_app _ _ _ E). reflexivity.
Qed.

Lemma match_frac_app (s r : str) (f : option str) :
  match_frac s = (f, r) -> match_frac (s ++ w) = (f, r ++ w).
Proof.
  unfold match_frac. intros H.
  destruct s as [|d s]; cbn [app].
  - injection H as <- <-.
    destruct w_head as [->|(c & w' & -> & Hc)]; [reflexivity|].
    apply is_ws_cases in Hc. destruct Hc as [->|[->|[->| ->]]]; reflexivity.
  - destruct (d =? 46); [|injection H as <- <-; reflexivity].
    destruct (span_digits s) as [ds r'] eqn:E.
    rewrite (span_digits_app _ _ _ E).
    destruct ds; injection H as <- <-; reflexivity.
Qed.

Lemma match_exp_app (s r : str) (e : option Z) :
  match_exp s = (e, r) -> match_exp (s ++ w) = (e, r ++ w).
Proof.
  unfold match_exp. intros H.
  destruct s as [|c s]; cbn [app].
  - injection H as <- <-.
    destruct w_head as [->|(c & w' & -> & Hc)]; [reflexivity|].
    apply is_ws_cases in Hc. destruct Hc as [->|[->|[->| ->]]]; reflexivity.
  - destruct ((c =? 101) || (c =? 69)); [|injection H as <- <-; reflexivity].
    destruct s as [|g t]; cbn [app].
    + cbn in H. injection H as <- <-.
      destruct w_head as [->|(x & w' & -> & Hx)]; [reflexivity|].
      apply is_ws_cases in Hx. destruct Hx as [->|[->|[->| ->]]]; reflexivity.
    + destruct (g =? 45).
      * destruct (span_digits t) as [ds r'] eqn:E.
        rewrite (span_digits_app _ _ _ E).
        destruct ds; injection H as <- <-; reflexivity.
      * destruct (g =? 43).
        -- destruct (span_digits t) as [ds r'] eqn:E.
           rewrite (span_digits_app _ _ _ E).
           destruct ds; injection H as <- <-; reflexivity.
        -- destruct (span_digits (g :: t)) as [ds r'] eqn:E.
           change (g :: t ++ w) with ((g :: t) ++ w).
           rewrite (span_digits_app _ _ _ E).
           destruct ds; injection H as <- <-; reflexivity.
Qed.

Lemma match_number_app (s r : str) (v : json) :
  match_number s = Ok v r -> match_number (s ++ w) = Ok v (r ++ w).
Proof.
  unfold match_number. intros H.
  destruct (match_integer s) as [[[neg ip] r1]|] eqn:E1; [|discriminate].
  rewrite (match_integer_app _ _ _ _ E1).
  destruct (match_frac r1) as [f r2] eqn:E2. rewrite (match_frac_app _ _ _ E2).
  destruct (match_exp r2) as [e r3] eqn:E3. rewrite (match_exp_app _ _ _ E3).
  destruct f, e; injection H as <- <-; reflexivity.
Qed.

Lemma strip_prefix_app (p s r : str) :
  strip_prefix p s = Some r -> strip_prefix p (s ++ w) = Some (r ++ w).
Proof.
  revert s. induction p as [|a p IH]; intros s H; cbn [strip_prefix] in *.
  - injection H as <-. reflexivity.
  - destruct s as [|b s]; [discriminate|]. cbn [app].
    destruct (a =? b); [apply IH, H | discriminate].
Qed.

Lemma constant_app (t : string) (v v' : json) (s r : str) :
  constant t v s = Ok v' r -> constant t v (s ++ w) = Ok v' (r ++ w).
Proof.
  unfold constant. intros H.
  destruct (strip_prefix (py t) s) as [r'|] eqn:E; [|discriminate].
  rewrite (strip_prefix_app _ _ _ E). injection H as <- <-. reflexivity.
Qed.

Ltac split_head H :=
  match type of H with
  | (if ?b then _ else _) = _ => destruct b eqn:?
  | match ?x with _ => _ end = _ => destruct x eqn:?
  end.

Ltac use_tests :=
  repeat match goal with
         | E : ?t = _ |- context [?t] => rewrite E
         end.

(** A string of one character before its end is the closing quote. *)
Lemma scanstring_one (x : N) (acc k r : str) :
  scanstring [x] acc = Some (k, r) -> x = 34 /\ k = rev acc /\ r = [].
Proof.
  cbn [scanstring]. destruct (N.eqb_spec x 34) as [->|_].
  - intros H. injection H as <- <-. repeat split.
  - destruct (x =? 92); [discriminate|]. destruct (x <=? 31); discriminate.
Qed.

(** One step of [scanstring]. *)
Lemma scanstring_step (c : N) (r acc : str) :
  scanstring (c :: r) acc
  = ltac:(let t := eval cbn [scanstring] in (scanstring (c :: r) acc) in
          exact t).
Proof. reflexivity. Qed.

Lemma scanstring_app (n : nat) :
  forall (s acc k r : str),
    (length s <= n)%nat -> scanstring s acc = Some (k, r) ->
    scanstring (s ++ w) acc = Some (k, r ++ w).
Proof.
  induction n as [|n IH]; intros s acc k r Hn H.
  - destruct s; [discriminate | cbn [length] in Hn; lia].
  - destruct s as [|c s]; [discriminate|]. cbn [scanstring] in H.
    repeat split_head H; subst; try discriminate;
      cbn [length] in Hn; cbn [app]; rewrite scanstring_step;
      repeat (use_tests; cbv beta iota).
    all: try (injection H as <- <-; reflexivity).
    all: try (apply IH in H; [exact H | cbn [length]; lia]).
    all: apply scanstring_one in H as (-> & -> & ->);
      destruct w; cbn; reflexivity.
Qed.

Lemma strip_prefix_app_none (p s : str) :
  forallb (fun c => negb (is_ws c)) p = true ->
  strip_prefix p s = None -> strip_prefix p (s ++ w) = None.
Proof.
  revert s. induction p as [|a p IH]; intros s Hp H; cbn [strip_prefix] in *;
    [discriminate|].
  cbn [forallb] in Hp. apply andb_true_iff in Hp as [Ha Hp].
  destruct s as [|b s]; cbn [app].
  - destruct w_head as [->|(u & w' & -> & Hu)]; [reflexivity|].
    destruct (N.eqb_spec a u) as [->|_]; [|reflexivity].
    rewrite Hu in Ha. discriminate Ha.
  - destruct (a =? b); [apply IH; assumption | reflexivity].
Qed.

Section LoopsPadded.

Variables scan1 scan2 : str -> result json.

Hypothesis scan1_shorter :
  forall s v r, scan1 s = Ok v r -> (length r < length s)%nat.

Hypothesis scan_app :
  forall s v r, scan1 s = Ok v r -> scan2 (s ++ w) = Ok v (r ++ w).

Lemma array_loop_app (n : nat) :
  forall s acc v r n',
    array_loop scan1 n s acc = Ok v r -> (n <= n')%nat ->
    array_loop scan2 n' (s ++ w) acc = Ok v (r ++ w).
Proof.
  induction n as [|n IH]; intros s acc v r n' H Hn; cbn [array_loop] in H;
    [discriminate|].
  destruct n' as [|m]; [lia|]. cbn [array_loop].
  destruct (scan1 s) as [v0 r0| |] eqn:E0; try discriminate.
  rewrite (scan_app _ _ _ E0).
  destruct (skip_ws r0) as [|c r'] eqn:E1; [discriminate|].
  rewrite (skip_ws_app_cons _ _ _ E1).
  destruct (c =? 93); [injection H as <- <-; reflexivity|].
  destruct (c =? 44); [|discriminate].
  destruct (skip_ws r') as [|x t] eqn:E2.
  - destruct n as [|n0]; [discriminate H|]. cbn [array_loop] in H.
    destruct (scan1 []) as [v1 r1| |] eqn:E3; try discriminate.
    apply scan1_shorter in E3. cbn [length] in E3. lia.
  - rewrite (skip_ws_app_cons _ _ _ E2). apply (IH (x :: t)); [exact H | lia].
Qed.

Lemma parse_array_app (s r : str) (v : json) :
  parse_array scan1 s = Ok v r -> parse_array scan2 (s ++ w) = Ok v (r ++ w).
Proof.
  unfold parse_array. intros H.
  destruct (skip_ws s) as [|c r0] eqn:E; [discriminate|].
  rewrite (skip_ws_app_cons _ _ _ E).
  destruct (c =? 93); [injection H as <- <-; reflexivity|].
  apply (array_loop_app _ _ _ _ _ _ H). cbn [length]. rewrite length_app. lia.
Qed.

Lemma object_loop_app (n : nat) :
  forall s d v r n',
    object_loop scan1 n s d = Ok v r -> (n <= n')%nat ->
    object_loop scan2 n' (s ++ w) d = Ok v (r ++ w).
Proof.
  induction n as [|n IH]; intros s d v r n' H Hn; cbn [object_loop] in H;
    [discriminate|].
  destruct n' as [|m]; [lia|]. cbn [object_loop].
  destruct s as [|q s]; [discriminate|]. cbn [app].
  destruct (q =? 34); [|discriminate].
  destruct (scanstring s []) as [[key r1]|] eqn:E0; [|discriminate].
  rewrite (scanstring_app _ _ _ _ _ (le_n _) E0).
  destruct (skip_ws r1) as [|c1 r2] eqn:E1; [discriminate|].
  rewrite (skip_ws_app_cons _ _ _ E1).
  destruct (c1 =? 58); [|discriminate].
  destruct (scan1 (skip_ws r2)) as [v0 r3| |] eqn:E2; try discriminate.
  destruct (skip_ws r2) as [|y u] eqn:E3.
  { apply scan1_shorter in E2. cbn [length] in E2. lia. }
  rewrite (skip_ws_app_cons _ _ _ E3).
  change (y :: u ++ w) with ((y :: u) ++ w). rewrite (scan_app _ _ _ E2).
  destruct (skip_ws r3) as [|c3 r4] eqn:E4; [discriminate|].
  rewrite (skip_ws_app_cons _ _ _ E4).
  destruct (c3 =? 125); [injection H as <- <-; reflexivity|].
  destruct (c3 =? 44); [|discriminate].
  destruct (skip_ws r4) as [|x t] eqn:E5.
  - destruct n as [|n0]; discriminate H.
  - rewrite (skip_ws_app_cons _ _ _ E5). apply (IH (x :: t)); [exact H | lia].
Qed.

Lemma parse_object_app (s r : str) (v : json) :
  parse_object scan1 s = Ok v r -> parse_object scan2 (s ++ w) = Ok v (r ++ w).
Proof.
  unfold parse_object. intros H.
  destruct (skip_ws s) as [|c r0] eqn:E; [discriminate|].
  rewrite (skip_ws_app_cons _ _ _ E).
  destruct (c =? 125); [injection H as <- <-; reflexivity|].
  apply (object_loop_app _ _ _ _ _ _ H). cbn [length]. rewrite length_app. lia.
Qed.

End LoopsPadded.

(** A value is read the same, with as much fuel or more, when white space
    follows the text. *)
Lemma scan_once_app (f : nat) :
  forall s v r f',
    scan_once f s = Ok v r -> (f <= f')%nat ->
    scan_once f' (s ++ w) = Ok v (r ++ w).
Proof.
  induction f as [|f IH]; intros s v r f' H Hf; cbn [scan_once] in H;
    [discriminate|].
  destruct f' as [|m]; [lia|].
  destruct s as [|c s]; [discriminate|]. cbn [app scan_once].
  destruct (c =? 34).
  { destruct (scanstring s []) as [[x r']|] eqn:E; [|discriminate].
    rewrite (scanstring_app _ _ _ _ _ (le_n _) E).
    injection H as <- <-. reflexivity. }
  destruct (c =? 123).
  { apply (parse_object_app (scan_once f) (scan_once m)
             (scan_once_shorter f)); [|exact H].
    intros s' v' r' H'. apply (IH _ _ _ _ H'). lia. }
  destruct (c =? 91).
  { apply (parse_array_app (scan_once f) (scan_once m)
             (scan_once_shorter f)); [|exact H].
    intros s' v' r' H'. apply (IH _ _ _ _ H'). lia. }
  change (c :: s ++ w) with ((c :: s) ++ w).
  repeat (match type of H with
          | (if ?b then _ else _) = _ => destruct b eqn:?
          end;
          [apply constant_app; exact H|]).
  destruct ((c =? 45)
            && bool_decide (is_Some (strip_prefix (py "-Infinity") (c :: s))))
    eqn:E.
  - apply andb_true_iff in E as [E1 E2]. rewrite E1.
    apply bool_decide_eq_true in E2 as [x Hx].
    rewrite (strip_prefix_app _ _ _ Hx).
    rewrite bool_decide_eq_true_2 by eauto. cbn [andb].
    apply constant_app; exact H.
  - replace ((c =? 45)
             && bool_decide
                  (is_Some (strip_prefix (py "-Infinity") ((c :: s) ++ w))))
      with false; [apply match_number_app; exact H|].
    symmetry. apply andb_false_iff in E as [E|E];
      [rewrite E; reflexivity|].
    apply andb_false_iff. right.
    apply bool_decide_eq_false in E. apply bool_decide_eq_false_2.
    intros [x Hx].
    rewrite strip_prefix_app_none in Hx; [discriminate Hx|reflexivity|].
    destruct (strip_prefix (py "-Infinity") (c :: s)) eqn:E';
      [destruct E; eauto | reflexivity].
Qed.

End Padding.

Lemma skip_ws_blank_app (b z : str) :
  forallb is_ws b = true -> skip_ws (b ++ z) = skip_ws z.
Proof.
  induction b as [|x b IH]; [reflexivity|].
  cbn [forallb app skip_ws]. rewrite andb_true_iff. intros [-> H].
  apply IH, H.
Qed.

(** A text that decodes still decodes, to the same value, with JSON white
    space before and after it. *)
Lemma loads_padded (w1 w2 content : str) (v : json) :
  forallb is_ws w1 = true -> forallb is_ws w2 = true ->
  loads content = Some v -> loads (w1 ++ content ++ w2) = Some v.
Proof.
  intros H1 H2. unfold loads.
  destruct (scan_once (S (length content)) (skip_ws content))
    as [v' r| |] eqn:E; try discriminate.
  intros H. rewrite (skip_ws_blank_app _ _ H1).
  destruct (skip_ws content) as [|c t] eqn:Ec; [discriminate E|].
  rewrite (skip_ws_app_cons w2 _ _ _ Ec).
  change (c :: t ++ w2) with ((c :: t) ++ w2).
  rewrite (scan_once_app w2 H2 _ _ _ _ (S (length (w1 ++ content ++ w2))) E)
    by (rewrite !length_app; lia).
  destruct (skip_ws r) eqn:Er; [|discriminate H].
  rewrite (skip_ws_app_nil w2 H2 _ Er). exact H.
Qed.

Section Stripping.

Lemma isspace_of_ws (b : str) :
  forallb is_ws b = true -> forallb PyStr.char_isspace b = true.
Proof.
  rewrite !forallb_forall. intros H c Hc. apply is_ws_isspace, H, Hc.
Qed.

Lemma lstrip_nil_blank (c : str) :
  PyStr.lstrip c = [] -> forallb PyStr.char_isspace c = true.
Proof.
  induction c as [|x c IH]; [reflexivity|]. cbn [PyStr.lstrip forallb].
  destruct (PyStr.char_isspace x); [exact IH | discriminate].
Qed.

Lemma lstrip_app_cons (c y u : str) (x : N) :
  PyStr.lstrip c = x :: u -> PyStr.lstrip (c ++ y) = x :: u ++ y.
Proof.
  induction c as [|a c IH]; cbn [app PyStr.lstrip]; [discriminate|].
  destruct (PyStr.char_isspace a); [exact IH|].
  intros H. injection H as <- <-. reflexivity.
Qed.

Lemma rstrip_app_blank (z b : str) :
  forallb PyStr.char_isspace b = true ->
  PyStr.rstrip (z ++ b) = PyStr.rstrip z.
Proof.
  intros H. unfold PyStr.rstrip. rewrite rev_app_distr, lstrip_blank_app;
    [reflexivity|].
  rewrite forallb_forall in *. intros x Hx. apply H, in_rev, Hx.
Qed.

(** White space around a text does not show after [strip]. *)
Lemma strip_padded (b1 b2 c : str) :
  forallb PyStr.char_isspace b1 = true ->
  forallb PyStr.char_isspace b2 = true ->
  PyStr.strip (b1 ++ c ++ b2) = PyStr.strip c.
Proof.
  intros H1 H2. unfold PyStr.strip. rewrite (lstrip_blank_app _ _ H1).
  destruct (PyStr.lstrip c) as [|x u] eqn:E.
  - rewrite (lstrip_blank_app _ _ (lstrip_nil_blank _ E)), (lstrip_blank _ H2).
    reflexivity.
  - rewrite (lstrip_app_cons _ b2 _ _ E).
    apply (rstrip_app_blank (x :: u) b2 H2).
Qed.

End Stripping.

(** X18: JSON white space around a reply is harmless. A reply that passes
    the check on its first and last character and decodes is recorded in
    the same way when spaces, tabs, line feeds or carriage returns are put
    before and after it. *)
Theorem json_space_around_reply (w1 w2 content : str) (v : json) :
  forallb is_ws w1 = true -> forallb is_ws w2 = true ->
  looks_like_json content = true -> loads content = Some v ->
  looks_like_json (w1 ++ content ++ w2) = true
  /\ loads (w1 ++ content ++ w2) = Some v
  /\ parse_content (w1 ++ content ++ w2) = parse_content content.
Proof.
  intros H1 H2 Hl Hv.
  assert (Hl' : looks_like_json (w1 ++ content ++ w2) = true).
  { unfold looks_like_json in *.
    rewrite (strip_padded _ _ _ (isspace_of_ws _ H1) (isspace_of_ws _ H2)).
    exact Hl. }
  pose proof (loads_padded w1 w2 content v H1 H2 Hv) as Hv'.
  split; [exact Hl'|]. split; [exact Hv'|].
  unfold parse_content. rewrite Hl, Hl', Hv, Hv'. reflexivity.
Qed.

Lemma json_space_around_reply_witness :
  parse_content ([10] ++ pyq "{'critique':'fees'}" ++ [32; 10])
  = parse_content (pyq "{'critique':'fees'}").
Proof.
  apply (json_space_around_reply [10] [32; 10] (pyq "{'critique':'fees'}")
           (JObj [(py "critique", JStr (py "fees"))]));
    vm_compute; reflexivity.
Defined.
